(** * Value-preserving literals ([gsi/val.h], [vir/val.h])

    A shallow embedding of the two headers [include/gsi/val.h] and
    [include/vir/val.h]: the literal types [constinteger] and [constreal],
    their unary operators, their checked conversions to the arithmetic types
    and the operator family of [_ConstBinaryOps].

    The headers rest on the built-in conversions and operators of C++.  Module
    [Cxx] fixes them for the data model of GCC on x86-64 (LP64): the integral
    types are [bool] and the signed and unsigned types of 8, 16, 32 and 64
    bits, [float] is binary32, [double] is binary64 and [long double] is the
    x87 extended format (64 bits of precision).  Every function of the
    headers that converts is [consteval], so an evaluation that runs into
    undefined behaviour is not a constant expression: it neither returns nor
    throws, and the model keeps it apart as the outcome [Undefined]. *)

From Stdlib Require Import ZArith Bool Lia.
From Stdlib Require Import Floats.SpecFloat.

Local Open Scope Z_scope.

(** ** Outcomes of a constant evaluation *)

Inductive exn : Type := bad_value_preserving_cast.

Inductive outcome (A : Type) : Type :=
| Return (a : A)
| Throw (e : exn)
| Undefined.

Arguments Return {A} a.
Arguments Throw {A} e.
Arguments Undefined {A}.

Definition bind {A B : Type} (c : outcome A) (k : A -> outcome B) : outcome B :=
  match c with
  | Return a => k a
  | Throw e => Throw e
  | Undefined => Undefined
  end.

Notation "x <- c ;; k" := (bind c (fun x => k))
  (at level 61, c at next level, right associativity).

(** ** The built-in part of the language *)

Module Cxx.

(** *** Arithmetic types *)

Inductive width : Type := W8 | W16 | W32 | W64.

Definition bits (w : width) : Z :=
  match w with W8 => 8 | W16 => 16 | W32 => 32 | W64 => 64 end.

(** [Int true w] is the signed type of [w] bits, [Int false w] the unsigned
    one; [char], [wchar_t], [char8_t], ... are each one of them. *)
Inductive integral : Type :=
| Bool
| Int (sgn : bool) (w : width).

Inductive floating : Type := Float | Double | LongDouble.

Inductive arith : Type :=
| Integral (Ti : integral)
| Floating (Tf : floating).

Definition signed_integral (Ti : integral) : bool :=
  match Ti with Int true _ => true | _ => false end.

Definition unsigned_integral (Ti : integral) : bool :=
  negb (signed_integral Ti).

Definition unsigned_long_long : integral := Int false W64.
Definition int : integral := Int true W32.
Definition short : integral := Int true W16.

(** [numeric_limits<Ti>::lowest()] and [numeric_limits<Ti>::max()]. *)
Definition int_lowest (Ti : integral) : Z :=
  match Ti with
  | Int true w => - 2 ^ (bits w - 1)
  | _ => 0
  end.

Definition int_max (Ti : integral) : Z :=
  match Ti with
  | Bool => 1
  | Int false w => 2 ^ bits w - 1
  | Int true w => 2 ^ (bits w - 1) - 1
  end.

Definition in_range (Ti : integral) (z : Z) : bool :=
  (int_lowest Ti <=? z) && (z <=? int_max Ti).

(** Conversion of an integer to an integral type ([conv.integral],
    [conv.bool]): the value congruent modulo [2^N], or [z != 0] for [bool]. *)
Definition to_integral (Ti : integral) (z : Z) : Z :=
  match Ti with
  | Bool => if z =? 0 then 0 else 1
  | Int false w => z mod 2 ^ bits w
  | Int true w => (z + 2 ^ (bits w - 1)) mod 2 ^ bits w - 2 ^ (bits w - 1)
  end.

(** [static_cast<unsigned long long>(z)] and unary minus on
    [unsigned long long]. *)
Definition to_ull (z : Z) : Z := to_integral unsigned_long_long z.
Definition ull_neg (u : Z) : Z := to_integral unsigned_long_long (- u).

(** *** Floating-point values

    A floating-point value is a [spec_float] whose finite values are kept
    with an odd mantissa, so that a number has one representation whatever
    the type it is stored in. *)

Record format : Type := Format { prec : Z; emax : Z }.

Definition fmt (Tf : floating) : format :=
  match Tf with
  | Float => Format 24 128
  | Double => Format 53 1024
  | LongDouble => Format 64 16384
  end.

Definition long_double : format := fmt LongDouble.

Fixpoint strip (m : positive) (e : Z) : positive * Z :=
  match m with
  | xO p => strip p (e + 1)
  | _ => (m, e)
  end.

Definition canon (x : spec_float) : spec_float :=
  match x with
  | S754_finite s m e => let '(m', e') := strip m e in S754_finite s m' e'
  | _ => x
  end.

Definition odd_mantissa (x : spec_float) : bool :=
  match x with
  | S754_finite _ (xO _) _ => false
  | _ => true
  end.

Definition size (m : positive) : Z := Zpos (digits2_pos m).

(** The numbers of a format: at most [prec] digits, above the smallest
    subnormal exponent, below [2^emax]. *)
Definition representable (f : format) (x : spec_float) : bool :=
  match x with
  | S754_finite _ m e =>
      (size m <=? prec f) && (emin (prec f) (emax f) <=? e)
      && (e + size m <=? emax f)
  | _ => true
  end.

(** Rounding to nearest, ties to even, to a format. *)
Definition fround (f : format) (x : spec_float) : spec_float :=
  match x with
  | S754_finite s m e =>
      canon (binary_normalize (prec f) (emax f) (cond_Zopp s (Zpos m)) e s)
  | _ => x
  end.

(** Conversion to a floating-point type ([conv.double], [conv.fpint]): exact
    when the source value is a number of the type, else rounded. *)
Definition fcast (f : format) (x : spec_float) : spec_float :=
  if representable f x then x else fround f x.

Definition float_of_int (f : format) (z : Z) : spec_float :=
  match z with
  | Z0 => S754_zero false
  | Zpos p => fcast f (canon (S754_finite false p 0))
  | Zneg p => fcast f (canon (S754_finite true p 0))
  end.

(** Truncation toward zero; nothing for NaN and the infinities. *)
Definition ftrunc (x : spec_float) : option Z :=
  match x with
  | S754_zero _ => Some 0
  | S754_finite s m e =>
      Some (cond_Zopp s (if 0 <=? e then Zpos m * 2 ^ e else Zpos m / 2 ^ (- e)))
  | _ => None
  end.

Definition fis_zero (x : spec_float) : bool :=
  match x with S754_zero _ => true | _ => false end.

(** Conversion of a floating-point value to an integral type ([conv.fpint],
    [conv.bool]): truncation, undefined when the truncated value is not a
    value of the type. *)
Definition int_of_float (Ti : integral) (x : spec_float) : outcome Z :=
  match Ti with
  | Bool => Return (if fis_zero x then 0 else 1)
  | _ =>
      match ftrunc x with
      | Some z => if in_range Ti z then Return z else Undefined
      | None => Undefined
      end
  end.

(** Comparison of two floating-point values; nothing when one is NaN. *)
Definition smant (x : spec_float) : Z :=
  match x with
  | S754_finite s m _ => cond_Zopp s (Zpos m)
  | _ => 0
  end.

Definition expo (x : spec_float) : Z :=
  match x with
  | S754_finite _ _ e => e
  | _ => 0
  end.

Definition fcompare (x y : spec_float) : option comparison :=
  match x, y with
  | S754_nan, _ | _, S754_nan => None
  | S754_infinity s, S754_infinity s' =>
      Some (if eqb s s' then Eq else if s then Lt else Gt)
  | S754_infinity s, _ => Some (if s then Lt else Gt)
  | _, S754_infinity s => Some (if s then Gt else Lt)
  | _, _ =>
      let e0 := Z.min (expo x) (expo y) in
      Some (smant x * 2 ^ (expo x - e0) ?= smant y * 2 ^ (expo y - e0))
  end.

Definition feq (x y : spec_float) : bool :=
  match fcompare x y with Some Eq => true | _ => false end.
Definition fne (x y : spec_float) : bool := negb (feq x y).
Definition flt (x y : spec_float) : bool :=
  match fcompare x y with Some Lt => true | _ => false end.
Definition fgt (x y : spec_float) : bool :=
  match fcompare x y with Some Gt => true | _ => false end.
Definition fle (x y : spec_float) : bool :=
  match fcompare x y with Some (Lt | Eq) => true | _ => false end.
Definition fge (x y : spec_float) : bool :=
  match fcompare x y with Some (Gt | Eq) => true | _ => false end.

(** *** Values of the arithmetic types *)

Inductive value : Type :=
| VInt (z : Z)
| VFlt (x : spec_float).

Definition has_type (T : arith) (v : value) : bool :=
  match T, v with
  | Integral Ti, VInt z => in_range Ti z
  | Floating Tf, VFlt x => odd_mantissa x && representable (fmt Tf) x
  | _, _ => false
  end.

Definition finite (x : spec_float) : bool :=
  match x with
  | S754_zero _ | S754_finite _ _ _ => true
  | _ => false
  end.

Definition finite_value (v : value) : bool :=
  match v with
  | VInt _ => true
  | VFlt x => finite x
  end.

(** [numeric_limits<Tf>::max()] and [lowest()] of a floating-point type. *)
Definition float_max (f : format) : spec_float :=
  S754_finite false (Z.to_pos (2 ^ prec f - 1)) (emax f - prec f).

Definition max_ (T : arith) : value :=
  match T with
  | Integral Ti => VInt (int_max Ti)
  | Floating Tf => VFlt (float_max (fmt Tf))
  end.

Definition lowest (T : arith) : value :=
  match T with
  | Integral Ti => VInt (int_lowest Ti)
  | Floating Tf => VFlt (SFopp (float_max (fmt Tf)))
  end.

(** [static_cast<long double>(v)] and [static_cast<T>(x)] for a
    [long double] [x]. *)
Definition to_long_double (v : value) : spec_float :=
  match v with
  | VInt z => float_of_int long_double z
  | VFlt x => fcast long_double x
  end.

Definition of_long_double (T : arith) (x : spec_float) : outcome value :=
  match T with
  | Integral Ti => z <- int_of_float Ti x ;; Return (VInt z)
  | Floating Tf => Return (VFlt (fcast (fmt Tf) x))
  end.

(** *** Built-in operators on two operands of one arithmetic type *)

Inductive binop : Type := Add | Sub | Mul | Div | Mod | And | Or | Xor.

Inductive cmpop : Type := Eq_ | Ne | Le | Ge | Lt_ | Gt_.

Inductive unop : Type := Minus | Plus | Compl | Not.

(** Integral promotion: the types below [int] are computed in [int]. *)
Definition promoted (Ti : integral) : integral :=
  match Ti with
  | Bool | Int _ W8 | Int _ W16 => int
  | _ => Ti
  end.

Definition fit (P : integral) (r : Z) : outcome Z :=
  if signed_integral P
  then (if in_range P r then Return r else Undefined)
  else Return (to_integral P r).

Definition int_binop (P : integral) (op : binop) (a b : Z) : outcome Z :=
  match op with
  | Add => fit P (a + b)
  | Sub => fit P (a - b)
  | Mul => fit P (a * b)
  | Div => if b =? 0 then Undefined else fit P (Z.quot a b)
  | Mod =>
      if b =? 0 then Undefined
      else if in_range P (Z.quot a b) then Return (Z.rem a b) else Undefined
  | And => Return (Z.land a b)
  | Or => Return (Z.lor a b)
  | Xor => Return (Z.lxor a b)
  end.

Definition float_binop (f : format) (op : binop) (x y : spec_float)
  : outcome spec_float :=
  match op with
  | Add => Return (canon (SFadd (prec f) (emax f) x y))
  | Sub => Return (canon (SFsub (prec f) (emax f) x y))
  | Mul => Return (canon (SFmul (prec f) (emax f) x y))
  | Div => Return (canon (SFdiv (prec f) (emax f) x y))
  | _ => Undefined
  end.

(** [a op b] for [a] and [b] of type [T], converted to [T]: what
    [return a op b;] gives in a function returning [T], and what
    [a op= b] stores in [a]. *)
Definition native (op : binop) (T : arith) (a b : value) : outcome value :=
  match T, a, b with
  | Integral Ti, VInt x, VInt y =>
      r <- int_binop (promoted Ti) op x y ;; Return (VInt (to_integral Ti r))
  | Floating Tf, VFlt x, VFlt y =>
      r <- float_binop (fmt Tf) op x y ;; Return (VFlt r)
  | _, _, _ => Undefined
  end.

Definition int_cmp (op : cmpop) (a b : Z) : bool :=
  match op with
  | Eq_ => a =? b
  | Ne => negb (a =? b)
  | Le => a <=? b
  | Ge => a >=? b
  | Lt_ => a <? b
  | Gt_ => a >? b
  end.

Definition float_cmp (op : cmpop) (x y : spec_float) : bool :=
  match op with
  | Eq_ => feq x y
  | Ne => fne x y
  | Le => fle x y
  | Ge => fge x y
  | Lt_ => flt x y
  | Gt_ => fgt x y
  end.

Definition native_cmp (op : cmpop) (a b : value) : bool :=
  match a, b with
  | VInt x, VInt y => int_cmp op x y
  | VFlt x, VFlt y => float_cmp op x y
  | _, _ => false
  end.

(** The concepts constraining the operator templates. *)
Inductive concept : Type := __arithmetic | integral_.

Definition satisfies (c : concept) (T : arith) : bool :=
  match c, T with
  | __arithmetic, _ => true
  | integral_, Integral _ => true
  | integral_, Floating _ => false
  end.

Definition zero (T : arith) : value :=
  match T with
  | Integral _ => VInt 0
  | Floating _ => VFlt (S754_zero false)
  end.

End Cxx.

(** ** [namespace gsi] ([include/gsi/val.h]) *)

Module gsi.
Import Cxx.

(** [struct constinteger]: the magnitude, an [unsigned long long], and the
    sign flag. *)
Record constinteger : Type := Constinteger {
  int_M_value : Z;
  int_M_negative : bool
}.

(** [struct constreal]: a [long double]. *)
Record constreal : Type := Constreal {
  real_M_value : spec_float
}.

(** [operator-(constinteger)] and [operator+(constinteger)]. *)
Definition constinteger_operator_minus (__v : constinteger) : constinteger :=
  Constinteger (int_M_value __v) (negb (int_M_negative __v)).

Definition constinteger_operator_plus (__v : constinteger) : constinteger :=
  __v.

(** [constinteger::operator _Up()]. *)
Definition constinteger_operator_Up (_Up : arith) (c : constinteger)
  : outcome value :=
  match _Up with
  | Floating Tf =>
      back <- int_of_float unsigned_long_long
                (float_of_int (fmt Tf) (int_M_value c)) ;;
      if negb (back =? int_M_value c)
      then Throw bad_value_preserving_cast
      else
        let r := float_of_int (fmt Tf) (int_M_value c) in
        Return (VFlt (if int_M_negative c then SFopp r else r))
  | Integral Ti =>
      if (int_M_negative c
          && (int_M_value c >? ull_neg (to_ull (int_lowest Ti))))
         || (negb (int_M_negative c) && (int_M_value c >? to_ull (int_max Ti)))
      then Throw bad_value_preserving_cast
      else
        Return (VInt (to_integral Ti
                        (if int_M_negative c
                         then ull_neg (int_M_value c)
                         else int_M_value c)))
  end.

(** The literal operator [_val(unsigned long long)],
    [val(unsigned_integral auto)] and
    [val(signed_integral auto)]. *)
Definition operator_val_integer (x : Z) : constinteger :=
  Constinteger x false.

Definition val_unsigned (x : Z) : constinteger :=
  Constinteger (to_ull x) false.

Definition val_signed (x : Z) : constinteger :=
  if x >=? 0
  then Constinteger (to_ull x) false
  else Constinteger (ull_neg (to_ull x)) true.

(** [operator-(constreal)] and [operator+(constreal)]. *)
Definition constreal_operator_minus (__v : constreal) : constreal :=
  Constreal (SFopp (real_M_value __v)).

Definition constreal_operator_plus (__v : constreal) : constreal :=
  __v.

(** [constreal::operator _Up()]. *)
Definition constreal_operator_Up (_Up : arith) (c : constreal)
  : outcome value :=
  if fgt (real_M_value c) (to_long_double (max_ _Up))
     || flt (real_M_value c) (to_long_double (lowest _Up))
  then Throw bad_value_preserving_cast
  else
    there <- of_long_double _Up (real_M_value c) ;;
    if fne (to_long_double there) (real_M_value c)
    then Throw bad_value_preserving_cast
    else of_long_double _Up (real_M_value c).

(** The literal operator [_val(long double)] and [val(long double)]; a
    [float] or [double] argument of [val] is first converted to
    [long double]. *)
Definition operator_val_real (x : spec_float) : constreal :=
  Constreal x.

Definition val_long_double (x : spec_float) : constreal :=
  Constreal x.

Definition val_floating (x : spec_float) : constreal :=
  val_long_double (fcast long_double x).

(** The unary operators, the deleted ones ([~], [!]) having no result. *)
Definition constinteger_unary (op : unop) (v : constinteger)
  : option constinteger :=
  match op with
  | Minus => Some (constinteger_operator_minus v)
  | Plus => Some (constinteger_operator_plus v)
  | Compl | Not => None
  end.

Definition constreal_unary (op : unop) (v : constreal) : option constreal :=
  match op with
  | Minus => Some (constreal_operator_minus v)
  | Plus => Some (constreal_operator_plus v)
  | Compl | Not => None
  end.

(** [_ConstBinaryOps::_ConvertTo<_Tp>]: built from either literal type by
    the literal's conversion operator. *)
Inductive literal : Type :=
| LInteger (x : constinteger)
| LReal (x : constreal).

Definition _ConvertTo (_Tp : arith) (x : literal) : outcome value :=
  match x with
  | LInteger c => constinteger_operator_Up _Tp c
  | LReal c => constreal_operator_Up _Tp c
  end.

(** The overload set [val]: the overload chosen for an argument of
    arithmetic type [_Tp].  (An integer at a floating-point type is not a
    value of that type; it is converted first, as an argument would be.) *)
Definition val (_Tp : arith) (x : value) : literal :=
  match x with
  | VInt z =>
      match _Tp with
      | Integral Ti =>
          if signed_integral Ti
          then LInteger (val_signed z)
          else LInteger (val_unsigned z)
      | Floating _ => LReal (val_floating (float_of_int long_double z))
      end
  | VFlt r => LReal (val_floating r)
  end.

(** A unary operator on a literal of either type. *)
Definition unary (op : unop) (x : literal) : option literal :=
  match x with
  | LInteger c => option_map LInteger (constinteger_unary op c)
  | LReal c => option_map LReal (constreal_unary op c)
  end.

(** The three templates of [_GLIBCXX_CONVERTTO_OP(constraint, op)]; there
    is no such operator ([None]) when [_Tp] does not satisfy the
    constraint. *)
Definition CONVERTTO_OP_assign (constraint : concept) (op : binop)
    (_Tp : arith) (__a : value) (__b : literal) : option (outcome value) :=
  if satisfies constraint _Tp
  then Some (b <- _ConvertTo _Tp __b ;; native Add _Tp __a b)
  else None.

Definition CONVERTTO_OP_right (constraint : concept) (op : binop)
    (_Tp : arith) (__a : value) (__b : literal) : option (outcome value) :=
  if satisfies constraint _Tp
  then Some (b <- _ConvertTo _Tp __b ;; native op _Tp __a b)
  else None.

Definition CONVERTTO_OP_left (constraint : concept) (op : binop)
    (_Tp : arith) (__a : literal) (__b : value) : option (outcome value) :=
  if satisfies constraint _Tp
  then Some (a <- _ConvertTo _Tp __a ;; native op _Tp a __b)
  else None.

(** The eight instantiations of the macro. *)
Definition constraint_of (op : binop) : concept :=
  match op with
  | Add | Sub | Mul | Div => __arithmetic
  | Mod | And | Or | Xor => integral_
  end.

(** [__a op= __b], [__a op __b] and [__b op __a] for a literal [__b]. *)
Definition compound_assign (op : binop) :=
  CONVERTTO_OP_assign (constraint_of op) op.

Definition binary_right (op : binop) :=
  CONVERTTO_OP_right (constraint_of op) op.

Definition binary_left (op : binop) :=
  CONVERTTO_OP_left (constraint_of op) op.

(** The two templates of [_GLIBCXX_CONVERTTO_CMP(op)]. *)
Definition compare_right (op : cmpop) (_Tp : arith) (__a : value)
    (__b : literal) : outcome bool :=
  b <- _ConvertTo _Tp __b ;; Return (native_cmp op __a b).

Definition compare_left (op : cmpop) (_Tp : arith) (__a : literal)
    (__b : value) : outcome bool :=
  a <- _ConvertTo _Tp __a ;; Return (native_cmp op a __b).

End gsi.

(** ** [namespace vir] ([include/vir/val.h]) *)

Module vir.
Import Cxx.

(** [struct constinteger]: the magnitude, an [unsigned long long], and the
    sign flag. *)
Record constinteger : Type := Constinteger {
  int_M_value : Z;
  int_M_negative : bool
}.

(** [struct constreal]: a [long double]. *)
Record constreal : Type := Constreal {
  real_M_value : spec_float
}.

(** [operator-(constinteger)] and [operator+(constinteger)]. *)
Definition constinteger_operator_minus (__v : constinteger) : constinteger :=
  Constinteger (int_M_value __v) (negb (int_M_negative __v)).

Definition constinteger_operator_plus (__v : constinteger) : constinteger :=
  __v.

(** [constinteger::operator _Up()]. *)
Definition constinteger_operator_Up (_Up : arith) (c : constinteger)
  : outcome value :=
  match _Up with
  | Floating Tf =>
      back <- int_of_float unsigned_long_long
                (float_of_int (fmt Tf) (int_M_value c)) ;;
      if negb (back =? int_M_value c)
      then Throw bad_value_preserving_cast
      else
        let r := float_of_int (fmt Tf) (int_M_value c) in
        Return (VFlt (if int_M_negative c then SFopp r else r))
  | Integral Ti =>
      if (int_M_negative c
          && (int_M_value c >? ull_neg (to_ull (int_lowest Ti))))
         || (negb (int_M_negative c) && (int_M_value c >? to_ull (int_max Ti)))
      then Throw bad_value_preserving_cast
      else
        Return (VInt (to_integral Ti
                        (if int_M_negative c
                         then ull_neg (int_M_value c)
                         else int_M_value c)))
  end.

(** The literal operator [_val(unsigned long long)],
    [val(unsigned_integral auto)] and
    [val(signed_integral auto)]. *)
Definition operator_val_integer (__x : Z) : constinteger :=
  Constinteger __x false.

Definition val_unsigned (__x : Z) : constinteger :=
  Constinteger (to_ull __x) false.

Definition val_signed (__x : Z) : constinteger :=
  if __x >=? 0
  then Constinteger (to_ull __x) false
  else Constinteger (ull_neg (to_ull __x)) true.

(** [operator-(constreal)] and [operator+(constreal)]. *)
Definition constreal_operator_minus (__v : constreal) : constreal :=
  Constreal (SFopp (real_M_value __v)).

Definition constreal_operator_plus (__v : constreal) : constreal :=
  __v.

(** [constreal::operator _Up()]. *)
Definition constreal_operator_Up (_Up : arith) (c : constreal)
  : outcome value :=
  if fgt (real_M_value c) (to_long_double (max_ _Up))
     || flt (real_M_value c) (to_long_double (lowest _Up))
  then Throw bad_value_preserving_cast
  else
    there <- of_long_double _Up (real_M_value c) ;;
    if fne (to_long_double there) (real_M_value c)
    then Throw bad_value_preserving_cast
    else of_long_double _Up (real_M_value c).

(** The literal operator [_val(long double)] and [val(long double)]; a
    [float] or [double] argument of [val] is first converted to
    [long double]. *)
Definition operator_val_real (__x : spec_float) : constreal :=
  Constreal __x.

Definition val_long_double (__x : spec_float) : constreal :=
  Constreal __x.

Definition val_floating (__x : spec_float) : constreal :=
  val_long_double (fcast long_double __x).

(** The unary operators, the deleted ones ([~], [!]) having no result. *)
Definition constinteger_unary (op : unop) (v : constinteger)
  : option constinteger :=
  match op with
  | Minus => Some (constinteger_operator_minus v)
  | Plus => Some (constinteger_operator_plus v)
  | Compl | Not => None
  end.

Definition constreal_unary (op : unop) (v : constreal) : option constreal :=
  match op with
  | Minus => Some (constreal_operator_minus v)
  | Plus => Some (constreal_operator_plus v)
  | Compl | Not => None
  end.

(** [_ConstBinaryOps::_ConvertTo<_Tp>]: built from either literal type by
    the literal's conversion operator. *)
Inductive literal : Type :=
| LInteger (x : constinteger)
| LReal (x : constreal).

Definition _ConvertTo (_Tp : arith) (__x : literal) : outcome value :=
  match __x with
  | LInteger c => constinteger_operator_Up _Tp c
  | LReal c => constreal_operator_Up _Tp c
  end.

(** The overload set [val]: the overload chosen for an argument of
    arithmetic type [_Tp].  (An integer at a floating-point type is not a
    value of that type; it is converted first, as an argument would be.) *)
Definition val (_Tp : arith) (x : value) : literal :=
  match x with
  | VInt z =>
      match _Tp with
      | Integral Ti =>
          if signed_integral Ti
          then LInteger (val_signed z)
          else LInteger (val_unsigned z)
      | Floating _ => LReal (val_floating (float_of_int long_double z))
      end
  | VFlt r => LReal (val_floating r)
  end.

(** A unary operator on a literal of either type. *)
Definition unary (op : unop) (x : literal) : option literal :=
  match x with
  | LInteger c => option_map LInteger (constinteger_unary op c)
  | LReal c => option_map LReal (constreal_unary op c)
  end.

(** The three templates of [_GLIBCXX_CONVERTTO_OP(constraint, op)]; there
    is no such operator ([None]) when [_Tp] does not satisfy the
    constraint. *)
Definition CONVERTTO_OP_assign (constraint : concept) (op : binop)
    (_Tp : arith) (__a : value) (__b : literal) : option (outcome value) :=
  if satisfies constraint _Tp
  then Some (b <- _ConvertTo _Tp __b ;; native Add _Tp __a b)
  else None.

Definition CONVERTTO_OP_right (constraint : concept) (op : binop)
    (_Tp : arith) (__a : value) (__b : literal) : option (outcome value) :=
  if satisfies constraint _Tp
  then Some (b <- _ConvertTo _Tp __b ;; native op _Tp __a b)
  else None.

Definition CONVERTTO_OP_left (constraint : concept) (op : binop)
    (_Tp : arith) (__a : literal) (__b : value) : option (outcome value) :=
  if satisfies constraint _Tp
  then Some (a <- _ConvertTo _Tp __a ;; native op _Tp a __b)
  else None.

(** The eight instantiations of the macro. *)
Definition constraint_of (op : binop) : concept :=
  match op with
  | Add | Sub | Mul | Div => __arithmetic
  | Mod | And | Or | Xor => integral_
  end.

(** [__a op= __b], [__a op __b] and [__b op __a] for a literal [__b]. *)
Definition compound_assign (op : binop) :=
  CONVERTTO_OP_assign (constraint_of op) op.

Definition binary_right (op : binop) :=
  CONVERTTO_OP_right (constraint_of op) op.

Definition binary_left (op : binop) :=
  CONVERTTO_OP_left (constraint_of op) op.

(** The two templates of [_GLIBCXX_CONVERTTO_CMP(op)]. *)
Definition compare_right (op : cmpop) (_Tp : arith) (__a : value)
    (__b : literal) : outcome bool :=
  b <- _ConvertTo _Tp __b ;; Return (native_cmp op __a b).

Definition compare_left (op : cmpop) (_Tp : arith) (__a : literal)
    (__b : value) : outcome bool :=
  a <- _ConvertTo _Tp __a ;; Return (native_cmp op a __b).

End vir.

(** ** The two namespaces side by side

    The structs of [gsi] and [vir] are distinct types with the same members;
    [to_vir] carries a literal of the one to the literal of the other. *)

Module Both.

Definition integer_to_vir (c : gsi.constinteger) : vir.constinteger :=
  vir.Constinteger (gsi.int_M_value c) (gsi.int_M_negative c).

Definition real_to_vir (c : gsi.constreal) : vir.constreal :=
  vir.Constreal (gsi.real_M_value c).

Definition to_vir (x : gsi.literal) : vir.literal :=
  match x with
  | gsi.LInteger c => vir.LInteger (integer_to_vir c)
  | gsi.LReal c => vir.LReal (real_to_vir c)
  end.

End Both.

(** ** Literals used in the scenarios

    The [long double] nearest to a decimal literal, as the compiler hands it
    to the literal operator. *)

Module Lit.

Definition real_0_5 : spec_float := S754_finite false 1 (-1).
Definition real_2_0 : spec_float := S754_finite false 1 1.
Definition real_2_5 : spec_float := S754_finite false 5 (-1).
Definition real_0_1 : spec_float :=
  S754_finite false 0xCCCCCCCCCCCCCCCD (-67).

End Lit.

(** ** [tests/arithmetic.cpp]

    The lambda of the first [static_assert], statement by statement; an
    operator the headers do not provide makes the program ill-formed. *)

Module Tests.
Import Cxx gsi.

Definition provided (r : option (outcome value)) : outcome value :=
  match r with
  | Some c => c
  | None => Undefined
  end.

(** [try { stmt; return false; } catch (const bad_value_preserving_cast&) {}]
    followed by [rest]. *)
Definition try_return_false (stmt : outcome value) (rest : outcome bool)
  : outcome bool :=
  match stmt with
  | Return _ => Return false
  | Throw bad_value_preserving_cast => rest
  | Undefined => Undefined
  end.

Definition i (x : Z) : literal := LInteger (operator_val_integer x).
Definition r (x : spec_float) : literal := LReal (operator_val_real x).
Definition neg_i (x : Z) : literal :=
  LInteger (constinteger_operator_minus (operator_val_integer x)).

Definition static_assert_lambda : outcome bool :=
  a <- _ConvertTo (Integral int) (i 1) ;;
  a <- provided (compound_assign Add (Integral int) a (i 0x2)) ;;
  a <- provided (compound_assign Sub (Integral int) a (i 2)) ;;
  a <- provided (compound_assign Mul (Integral int) a (i 3)) ;;
  a <- provided (compound_assign Div (Integral int) a (r Lit.real_2_0)) ;;
  b <- _ConvertTo (Floating Float) (neg_i 0xf000000000000000) ;;
  b <- provided (compound_assign Mul (Floating Float) b (i 2)) ;;
  b <- provided (compound_assign Div (Floating Float) b (i 0x1000002)) ;;
  b <- provided (compound_assign Add (Floating Float) b (r Lit.real_0_5)) ;;
  c <- _ConvertTo (Integral short) (i 100) ;;
  c <- provided (compound_assign Add (Integral short) c (i 0x7000)) ;;
  c <- provided (compound_assign Add (Integral short) c (neg_i 0x8000)) ;;
  c <- provided (binary_right Mul (Integral short) c (val (Integral int) (VInt 1))) ;;
  try_return_false
    (provided (compound_assign Add (Floating Float) b (i 0x1000001)))
    (try_return_false
       (provided (compound_assign Add (Floating Float) b (r Lit.real_0_1)))
       (try_return_false
          (provided (compound_assign Add (Integral short) c (i 0x8000)))
          (Return true))).

(** [constexpr int a = gsi::val(int(-0x8000'0000));] and
    [static_assert(a == -0x8000'0000_val);]. *)
Definition second_static_assert : outcome bool :=
  a <- _ConvertTo (Integral int) (val (Integral int) (VInt (- 0x80000000))) ;;
  compare_right Eq_ (Integral int) a (neg_i 0x80000000).

(** [int main() { return -0_val; }]. *)
Definition main : outcome value := _ConvertTo (Integral int) (neg_i 0).

End Tests.

(** ** Reading aids for the further properties *)

Module Reading.
Import Cxx.

(** The [long double] of an integer below [2^64] in magnitude. *)
Definition image_of (z : Z) : spec_float :=
  match z with
  | Z0 => S754_zero false
  | Zpos p => canon (S754_finite false p 0)
  | Zneg p => canon (S754_finite true p 0)
  end.

(** The comparison with its operands exchanged. *)
Definition mirror (op : cmpop) : cmpop :=
  match op with
  | Eq_ => Eq_
  | Ne => Ne
  | Le => Ge
  | Ge => Le
  | Lt_ => Gt_
  | Gt_ => Lt_
  end.

(** The operators of the macro family whose built-in form is commutative. *)
Definition commutative (op : binop) : bool :=
  match op with
  | Add | Mul | And | Or | Xor => true
  | Sub | Div | Mod => false
  end.

(** Unary minus on a value. *)
Definition negate (v : value) : value :=
  match v with
  | VInt z => VInt (- z)
  | VFlt x => VFlt (SFopp x)
  end.

(** A literal as the headers can hold it: a magnitude that is an
    [unsigned long long], a real that is a [long double]. *)
Definition literal_ok (x : gsi.literal) : bool :=
  match x with
  | gsi.LInteger c => (0 <=? gsi.int_M_value c) && (gsi.int_M_value c <? 2 ^ 64)
  | gsi.LReal c => has_type (Floating LongDouble) (VFlt (gsi.real_M_value c))
  end.

End Reading.

(** * Properties *)

Import Cxx.

(** ** The repository's test

    In the model the two [static_assert]s of [tests/arithmetic.cpp] hold and
    [main] returns 0. *)

Lemma arithmetic_cpp_holds :
  Tests.static_assert_lambda = Return true
  /\ Tests.second_static_assert = Return true
  /\ Tests.main = Return (VInt 0).
Proof. repeat split. Qed.

(** ** Integer conversions *)

Lemma bits_pos (w : width) : 8 <= bits w <= 64.
Proof. destruct w; simpl; lia. Qed.

Lemma int_bounds (Ti : integral) :
  - 2 ^ 63 <= int_lowest Ti <= 0 /\ 1 <= int_max Ti < 2 ^ 64.
Proof. destruct Ti as [|[] []]; vm_compute; intuition discriminate. Qed.

Lemma to_ull_small (z : Z) : 0 <= z < 2 ^ 64 -> to_ull z = z.
Proof.
  intros H. unfold to_ull, unsigned_long_long; cbn [to_integral].
  now apply Z.mod_small.
Qed.

Lemma to_ull_max (Ti : integral) : to_ull (int_max Ti) = int_max Ti.
Proof. apply to_ull_small. pose proof (int_bounds Ti). lia. Qed.

(** [-static_cast<unsigned long long>(L::lowest())] is the magnitude of the
    minimum: the negation is done on the unsigned type and does not
    overflow. *)
Lemma ull_neg_lowest (Ti : integral) :
  ull_neg (to_ull (int_lowest Ti)) = - int_lowest Ti.
Proof. destruct Ti as [|[] []]; reflexivity. Qed.

Lemma to_integral_in_range (Ti : integral) (z : Z) :
  in_range Ti z = true -> to_integral Ti z = z.
Proof.
  unfold in_range. intros H. apply andb_true_iff in H as [Hl Hh].
  apply Z.leb_le in Hl, Hh.
  destruct Ti as [|[] w]; cbn [to_integral int_lowest int_max] in *.
  - destruct (Z.eqb_spec z 0); lia.
  - pose proof (bits_pos w) as Hw.
    assert (Hp : 2 ^ bits w = 2 * 2 ^ (bits w - 1)).
    { rewrite <- Z.pow_succ_r by lia. f_equal. lia. }
    assert (0 < 2 ^ (bits w - 1)) by (apply Z.pow_pos_nonneg; lia).
    rewrite Z.mod_small; lia.
  - apply Z.mod_small. lia.
Qed.

Lemma to_integral_neg_magnitude (Ti : integral) (m : Z) :
  0 <= m <= - int_lowest Ti -> to_integral Ti (ull_neg m) = - m.
Proof.
  intros Hm. destruct (Z.eq_dec m 0) as [-> | Hnz].
  - destruct Ti as [|[] []]; reflexivity.
  - destruct Ti as [|[] w]; cbn [int_lowest] in Hm; try lia.
    unfold ull_neg, unsigned_long_long; cbn [to_integral].
    change (bits W64) with 64.
    pose proof (bits_pos w) as Hw.
    assert (Hp : 2 ^ bits w = 2 * 2 ^ (bits w - 1)).
    { rewrite <- Z.pow_succ_r by lia. f_equal. lia. }
    assert (H64 : 2 ^ 64 = 2 ^ (64 - bits w) * 2 ^ bits w).
    { rewrite <- Z.pow_add_r by lia. f_equal. lia. }
    assert (0 < 2 ^ (bits w - 1)) by (apply Z.pow_pos_nonneg; lia).
    assert (Hle : 2 ^ (bits w - 1) < 2 ^ 64).
    { apply Z.pow_lt_mono_r; lia. }
    replace ((- m) mod 2 ^ 64) with (2 ^ 64 - m).
    2:{ apply Z.mod_unique with (q := -1); lia. }
    replace (2 ^ 64 - m + 2 ^ (bits w - 1))
      with ((2 ^ (bits w - 1) - m) + 2 ^ (64 - bits w) * 2 ^ bits w) by lia.
    rewrite Z.mod_add by lia.
    rewrite Z.mod_small; lia.
Qed.

Lemma gtb_gt (a b : Z) : (a >? b) = true <-> a > b.
Proof. rewrite Z.gtb_ltb, Z.ltb_lt. lia. Qed.

Lemma gtb_le (a b : Z) : (a >? b) = false <-> a <= b.
Proof. rewrite Z.gtb_ltb, Z.ltb_ge. lia. Qed.

(** The integral branch of [constinteger::operator _Up()], with the two
    bounds read as integers. *)
Lemma constinteger_to_integral (Ti : integral) (m : Z) (neg : bool) :
  gsi.constinteger_operator_Up (Integral Ti) (gsi.Constinteger m neg) =
  if (neg && (m >? - int_lowest Ti)) || (negb neg && (m >? int_max Ti))
  then Throw bad_value_preserving_cast
  else Return (VInt (to_integral Ti (if neg then ull_neg m else m))).
Proof.
  unfold gsi.constinteger_operator_Up; cbn [gsi.int_M_value gsi.int_M_negative].
  now rewrite ull_neg_lowest, to_ull_max.
Qed.

(** C4.  Conversion of an integer literal of magnitude [m] and sign flag
    [neg] to an integral type fails with [bad_value_preserving_cast] exactly
    when [neg] and [m] exceeds the magnitude of the type's minimum, or not
    [neg] and [m] exceeds the type's maximum; otherwise it returns [m],
    negated if [neg], cast to the type, and that cast is the integer [-m] or
    [m] itself.  [0x8000] does not convert to a 16-bit signed type and
    [-0x8000] converts to its minimum. *)
Theorem C4_integer_literal_to_integral
    (Ti : integral) (m : Z) (neg : bool) (Hm : 0 <= m < 2 ^ 64) :
  (gsi.constinteger_operator_Up (Integral Ti) (gsi.Constinteger m neg)
     = Throw bad_value_preserving_cast
   <-> (neg = true /\ m > - int_lowest Ti) \/ (neg = false /\ m > int_max Ti))
  /\ (~ ((neg = true /\ m > - int_lowest Ti) \/ (neg = false /\ m > int_max Ti)) ->
      gsi.constinteger_operator_Up (Integral Ti) (gsi.Constinteger m neg)
        = Return (VInt (to_integral Ti (if neg then ull_neg m else m)))
      /\ to_integral Ti (if neg then ull_neg m else m) = (if neg then - m else m))
  /\ ull_neg (to_ull (int_lowest Ti)) = - int_lowest Ti
  /\ gsi.constinteger_operator_Up (Integral short) (gsi.operator_val_integer 0x8000)
     = Throw bad_value_preserving_cast
  /\ gsi.constinteger_operator_Up (Integral short)
       (gsi.constinteger_operator_minus (gsi.operator_val_integer 0x8000))
     = Return (VInt (int_lowest short)).
Proof.
  rewrite constinteger_to_integral.
  repeat split; try reflexivity; try apply ull_neg_lowest.
  - destruct neg; cbn [andb orb negb];
      destruct (m >? _) eqn:E; try discriminate; intros _;
      apply gtb_gt in E; auto.
  - intros [[-> H] | [-> H]]; cbn [andb orb negb];
      apply gtb_gt in H; now rewrite H.
  - destruct neg; cbn [andb orb negb];
      destruct (m >? _) eqn:E; try reflexivity;
      apply gtb_gt in E; exfalso; apply H; auto.
  - destruct neg.
    + apply to_integral_neg_magnitude. 
      destruct (Z_gt_dec m (- int_lowest Ti)); [exfalso; apply H; auto | lia].
    + apply to_integral_in_range. unfold in_range.
      pose proof (int_bounds Ti).
      destruct (Z_gt_dec m (int_max Ti)); [exfalso; apply H; auto |].
      apply andb_true_iff; split; apply Z.leb_le; lia.
Qed.

Lemma C4_integer_literal_to_integral_witness :
  0 <= 0x8000 < 2 ^ 64
  /\ gsi.constinteger_operator_Up (Integral short) (gsi.Constinteger 0x8000 true)
     = Return (VInt (- 0x8000)).
Proof.
  assert (Hm : 0 <= 0x8000 < 2 ^ 64) by (split; [discriminate | reflexivity]).
  split; [exact Hm |].
  destruct (C4_integer_literal_to_integral short 0x8000 true Hm)
    as (_ & Hret & _).
  destruct Hret as [Hr Hv].
  - intros [[_ H] | [H _]]; [vm_compute in H; discriminate H | discriminate H].
  - rewrite Hr. reflexivity.
Defined.

(** C7.  Unary plus returns its operand, and negating twice returns the
    operand too, for both literal types: the magnitude and the sign flag of
    an integer literal, and the value of a real literal, are restored, so the
    result converts and compares as the operand does. *)
Theorem C7_unary_plus_and_double_negation :
  (forall v : gsi.constinteger,
      gsi.constinteger_operator_plus v = v
      /\ gsi.constinteger_operator_minus (gsi.constinteger_operator_minus v) = v)
  /\ (forall v : gsi.constreal,
      gsi.constreal_operator_plus v = v
      /\ gsi.constreal_operator_minus (gsi.constreal_operator_minus v) = v)
  /\ (forall (x : gsi.literal) (op : cmpop) (T : arith) (a : value),
      exists y z,
        gsi.unary Plus x = Some x
        /\ gsi.unary Minus x = Some y /\ gsi.unary Minus y = Some z
        /\ gsi._ConvertTo T z = gsi._ConvertTo T x
        /\ gsi.compare_right op T a z = gsi.compare_right op T a x
        /\ gsi.compare_left op T z a = gsi.compare_left op T x a).
Proof.
  assert (Hi : forall v, gsi.constinteger_operator_minus
                           (gsi.constinteger_operator_minus v) = v).
  { intros [m n]. unfold gsi.constinteger_operator_minus; simpl.
    now rewrite negb_involutive. }
  assert (Hr : forall v, gsi.constreal_operator_minus
                           (gsi.constreal_operator_minus v) = v).
  { intros [[s | s | | s m e]]; unfold gsi.constreal_operator_minus; simpl;
      now rewrite ?negb_involutive. }
  split; [| split].
  - intros v. split; [reflexivity | apply Hi].
  - intros v. split; [reflexivity | apply Hr].
  - intros [c | c] op T a.
    + exists (gsi.LInteger (gsi.constinteger_operator_minus c)), (gsi.LInteger c).
      simpl. rewrite Hi. repeat split.
    + exists (gsi.LReal (gsi.constreal_operator_minus c)), (gsi.LReal c).
      simpl. rewrite Hr. repeat split.
Qed.

(** C8.  Unary negation of an integer literal always has a result, which
    keeps the magnitude and flips the sign flag.  Negating the literal zero
    records a set sign flag, and negating any literal of magnitude zero gives
    a literal whose conversion to every arithmetic type succeeds and returns
    a zero of that type. *)
Theorem C8_negation_flips_the_flag_and_zero_stays_zero :
  (forall v : gsi.constinteger,
      gsi.constinteger_unary Minus v
      = Some (gsi.Constinteger (gsi.int_M_value v) (negb (gsi.int_M_negative v))))
  /\ gsi.constinteger_operator_minus (gsi.operator_val_integer 0)
     = gsi.Constinteger 0 true
  /\ (forall (T : arith) (neg : bool),
      exists r,
        gsi.constinteger_operator_Up T
          (gsi.constinteger_operator_minus (gsi.Constinteger 0 neg)) = Return r
        /\ has_type T r = true
        /\ native_cmp Eq_ r (zero T) = true
        /\ gsi.compare_left Eq_ T
             (gsi.LInteger (gsi.constinteger_operator_minus (gsi.Constinteger 0 neg)))
             (zero T) = Return true).
Proof.
  split; [reflexivity | split; [reflexivity |]].
  intros [Ti | Tf] neg.
  - exists (VInt 0). destruct neg, Ti as [|[] []]; repeat split.
  - destruct neg.
    + exists (VFlt (S754_zero false)). destruct Tf; repeat split.
    + exists (VFlt (S754_zero true)). destruct Tf; repeat split.
Qed.

(** C1.  The compound assignment [a op= L] of the headers converts [L] and
    then applies [+=], whatever [op] is: it stores what [a + L] returns.  So
    [a -= 2_val] turns an [int] 3 into 5, where [3 - 2_val] is 1. *)
Theorem C1_compound_assignment_always_adds :
  (forall (op : binop) (T : arith) (a : value) (L : gsi.literal),
      gsi.compound_assign op T a L
      = if satisfies (gsi.constraint_of op) T
        then gsi.binary_right Add T a L else None)
  /\ (forall (op : binop) (T : arith) (a : value) (L : vir.literal),
      vir.compound_assign op T a L
      = if satisfies (vir.constraint_of op) T
        then vir.binary_right Add T a L else None)
  /\ gsi.compound_assign Sub (Integral int) (VInt 3)
       (gsi.LInteger (gsi.operator_val_integer 2)) = Some (Return (VInt 5))
  /\ gsi.binary_right Sub (Integral int) (VInt 3)
       (gsi.LInteger (gsi.operator_val_integer 2)) = Some (Return (VInt 1))
  /\ vir.compound_assign Sub (Integral int) (VInt 3)
       (vir.LInteger (vir.operator_val_integer 2)) = Some (Return (VInt 5)).
Proof.
  split; [| split; [| repeat split]]; intros op T a L.
  - unfold gsi.compound_assign, gsi.CONVERTTO_OP_assign, gsi.binary_right,
      gsi.CONVERTTO_OP_right.
    destruct (satisfies _ T); reflexivity.
  - unfold vir.compound_assign, vir.CONVERTTO_OP_assign, vir.binary_right,
      vir.CONVERTTO_OP_right.
    destruct (satisfies _ T); reflexivity.
Qed.

(** C9.  The [gsi] and the [vir] copy agree: every construction, every unary
    operator, both checked conversions, and every compound, binary and
    comparison operator of [vir] gives, on the [vir] image of a [gsi]
    literal, the result (or the failure) of the [gsi] one. *)
Theorem C9_gsi_and_vir_agree :
  (forall x, vir.operator_val_integer x
             = Both.integer_to_vir (gsi.operator_val_integer x))
  /\ (forall x, vir.val_unsigned x = Both.integer_to_vir (gsi.val_unsigned x))
  /\ (forall x, vir.val_signed x = Both.integer_to_vir (gsi.val_signed x))
  /\ (forall x, vir.operator_val_real x
                = Both.real_to_vir (gsi.operator_val_real x))
  /\ (forall x, vir.val_long_double x = Both.real_to_vir (gsi.val_long_double x))
  /\ (forall x, vir.val_floating x = Both.real_to_vir (gsi.val_floating x))
  /\ (forall T x, vir.val T x = Both.to_vir (gsi.val T x))
  /\ (forall op c, vir.constinteger_unary op (Both.integer_to_vir c)
                   = option_map Both.integer_to_vir (gsi.constinteger_unary op c))
  /\ (forall op c, vir.constreal_unary op (Both.real_to_vir c)
                   = option_map Both.real_to_vir (gsi.constreal_unary op c))
  /\ (forall op x, vir.unary op (Both.to_vir x)
                   = option_map Both.to_vir (gsi.unary op x))
  /\ (forall T c, vir.constinteger_operator_Up T (Both.integer_to_vir c)
                  = gsi.constinteger_operator_Up T c)
  /\ (forall T c, vir.constreal_operator_Up T (Both.real_to_vir c)
                  = gsi.constreal_operator_Up T c)
  /\ (forall T x, vir._ConvertTo T (Both.to_vir x) = gsi._ConvertTo T x)
  /\ (forall op T a x, vir.compound_assign op T a (Both.to_vir x)
                       = gsi.compound_assign op T a x)
  /\ (forall op T a x, vir.binary_right op T a (Both.to_vir x)
                       = gsi.binary_right op T a x)
  /\ (forall op T a x, vir.binary_left op T (Both.to_vir x) a
                       = gsi.binary_left op T x a)
  /\ (forall op T a x, vir.compare_right op T a (Both.to_vir x)
                       = gsi.compare_right op T a x)
  /\ (forall op T a x, vir.compare_left op T (Both.to_vir x) a
                       = gsi.compare_left op T x a).
Proof.
  assert (Hc : forall T x, vir._ConvertTo T (Both.to_vir x) = gsi._ConvertTo T x).
  { intros T [c | c]; reflexivity. }
  repeat split; try reflexivity.
  - intros x. unfold vir.val_signed, gsi.val_signed.
    destruct (x >=? 0); reflexivity.
  - intros T [z | r]; [| reflexivity].
    destruct T as [Ti | Tf]; [| reflexivity].
    cbn. destruct (signed_integral Ti); [| reflexivity].
    unfold vir.val_signed, gsi.val_signed. destruct (_ >=? 0); reflexivity.
  - intros [] c; reflexivity.
  - intros [] c; reflexivity.
  - intros [] [c | c]; reflexivity.
  - exact Hc.
  - intros op T a x.
    unfold vir.compound_assign, vir.CONVERTTO_OP_assign,
      gsi.compound_assign, gsi.CONVERTTO_OP_assign.
    now rewrite Hc.
  - intros op T a x.
    unfold vir.binary_right, vir.CONVERTTO_OP_right,
      gsi.binary_right, gsi.CONVERTTO_OP_right.
    now rewrite Hc.
  - intros op T a x.
    unfold vir.binary_left, vir.CONVERTTO_OP_left,
      gsi.binary_left, gsi.CONVERTTO_OP_left.
    now rewrite Hc.
  - intros op T a x. unfold vir.compare_right, gsi.compare_right. now rewrite Hc.
  - intros op T a x. unfold vir.compare_left, gsi.compare_left. now rewrite Hc.
Qed.

(** ** Floating-point conversions *)

Lemma size_bound (m : positive) : 2 ^ (size m - 1) <= Zpos m < 2 ^ size m.
Proof.
  unfold size. induction m as [m IH | m IH |]; cbn [digits2_pos].
  - rewrite Pos2Z.inj_succ.
    replace (Z.succ (Zpos (digits2_pos m)) - 1)
      with (Z.succ (Zpos (digits2_pos m) - 1)) by lia.
    rewrite !Z.pow_succ_r by lia. lia.
  - rewrite Pos2Z.inj_succ.
    replace (Z.succ (Zpos (digits2_pos m)) - 1)
      with (Z.succ (Zpos (digits2_pos m) - 1)) by lia.
    rewrite !Z.pow_succ_r by lia. lia.
  - cbn. lia.
Qed.

(** A number of at most [p] digits below [2^E] is at most the largest
    number of the format, both scaled to their common exponent. *)
Lemma scaled_le_max (p E d m e : Z) :
  0 < m < 2 ^ d -> 0 < d <= p -> e + d <= E ->
  m * 2 ^ (e - Z.min e (E - p))
  <= (2 ^ p - 1) * 2 ^ (E - p - Z.min e (E - p)).
Proof.
  intros Hm Hd He.
  assert (Hdp : 2 ^ d <= 2 ^ p) by (apply Z.pow_le_mono_r; lia).
  destruct (Z.le_gt_cases e (E - p)) as [Hle | Hgt].
  - rewrite Z.min_l by lia. rewrite Z.sub_diag, Z.pow_0_r.
    assert (0 < 2 ^ (E - p - e)) by (apply Z.pow_pos_nonneg; lia).
    nia.
  - rewrite Z.min_r by lia. rewrite Z.sub_diag, Z.pow_0_r.
    assert (Hj : 0 < 2 ^ (e - (E - p))) by (apply Z.pow_pos_nonneg; lia).
    assert (Hs : 2 ^ d * 2 ^ (e - (E - p)) <= 2 ^ p).
    { rewrite <- Z.pow_add_r by lia. apply Z.pow_le_mono_r; lia. }
    nia.
Qed.

Lemma representable_long_double (Tf : floating) (x : spec_float) :
  representable (fmt Tf) x = true -> representable long_double x = true.
Proof.
  destruct x as [s | s | | s m e]; try reflexivity.
  unfold representable, long_double.
  destruct Tf; cbn [fmt prec emax]; unfold emin;
    rewrite !andb_true_iff, !Z.leb_le; lia.
Qed.

Lemma fcast_representable (f : format) (x : spec_float) :
  representable f x = true -> fcast f x = x.
Proof. unfold fcast. now intros ->. Qed.

Lemma to_long_double_max (Tf : floating) :
  to_long_double (max_ (Floating Tf)) = float_max (fmt Tf).
Proof. destruct Tf; vm_compute; reflexivity. Qed.

Lemma to_long_double_lowest (Tf : floating) :
  to_long_double (lowest (Floating Tf)) = SFopp (float_max (fmt Tf)).
Proof. destruct Tf; vm_compute; reflexivity. Qed.

Lemma float_max_parts (Tf : floating) :
  float_max (fmt Tf)
  = S754_finite false (Z.to_pos (2 ^ prec (fmt Tf) - 1))
      (emax (fmt Tf) - prec (fmt Tf))
  /\ Zpos (Z.to_pos (2 ^ prec (fmt Tf) - 1)) = 2 ^ prec (fmt Tf) - 1
  /\ 0 < prec (fmt Tf).
Proof. destruct Tf; repeat split. Qed.

Lemma feq_refl (x : spec_float) : x <> S754_nan -> feq x x = true.
Proof.
  unfold feq, fcompare.
  destruct x as [s | s | | s m e]; intros H; try congruence.
  - now rewrite Z.compare_refl.
  - now rewrite eqb_reflx.
  - now rewrite Z.compare_refl.
Qed.

(** A finite number of a floating-point type lies within
    [[lowest(), max()]] of that type. *)
Lemma within_float_limits (Tf : floating) (x : spec_float) :
  finite x = true -> representable (fmt Tf) x = true ->
  fgt x (float_max (fmt Tf)) = false
  /\ flt x (SFopp (float_max (fmt Tf))) = false.
Proof.
  intros Hfin Hrep.
  destruct (float_max_parts Tf) as (Hmax & HM & Hp). rewrite Hmax.
  set (p := prec (fmt Tf)) in *. set (E := emax (fmt Tf)) in *.
  assert (HM0 : 0 < 2 ^ p - 1).
  { assert (2 ^ 1 <= 2 ^ p) by (apply Z.pow_le_mono_r; lia). 
    change (2 ^ 1) with 2 in *. lia. }
  destruct x as [s | s | | s m e]; try discriminate.
  - (* zero *)
    unfold fgt, flt, fcompare; cbn [smant expo SFopp negb cond_Zopp].
    rewrite HM. rewrite Z.mul_0_l.
    assert (0 < 2 ^ (E - p - Z.min 0 (E - p))) by (apply Z.pow_pos_nonneg; lia).
    split.
    + destruct (Z.compare_spec 0 ((2 ^ p - 1) * 2 ^ (E - p - Z.min 0 (E - p))));
        try reflexivity; nia.
    + destruct (Z.compare_spec 0 (- (2 ^ p - 1) * 2 ^ (E - p - Z.min 0 (E - p))));
        try reflexivity; nia.
  - (* finite *)
    cbn [representable] in Hrep. fold p E in Hrep.
    rewrite !andb_true_iff, !Z.leb_le in Hrep. destruct Hrep as [[Hsz _] Htop].
    pose proof (size_bound m) as Hsb.
    assert (Hd : 0 < size m) by (unfold size; lia).
    pose proof (scaled_le_max p E (size m) (Zpos m) e
                  (conj (Pos2Z.is_pos m) (proj2 Hsb)) (conj Hd Hsz) Htop) as Hle.
    assert (0 < 2 ^ (e - Z.min e (E - p))) by (apply Z.pow_pos_nonneg; lia).
    assert (0 < 2 ^ (E - p - Z.min e (E - p))) by (apply Z.pow_pos_nonneg; lia).
    unfold fgt, flt, fcompare; cbn [smant expo SFopp negb cond_Zopp].
    rewrite HM.
    split.
    + destruct (Z.compare_spec (cond_Zopp s (Zpos m) * 2 ^ (e - Z.min e (E - p)))
                  ((2 ^ p - 1) * 2 ^ (E - p - Z.min e (E - p))));
        try reflexivity.
      destruct s; cbn [cond_Zopp] in *; nia.
    + destruct (Z.compare_spec (cond_Zopp s (Zpos m) * 2 ^ (e - Z.min e (E - p)))
                  (- (2 ^ p - 1) * 2 ^ (E - p - Z.min e (E - p))));
        try reflexivity.
      destruct s; cbn [cond_Zopp] in *; nia.
Qed.

Lemma strip_spec (m : positive) (e : Z) :
  e <= snd (strip m e)
  /\ Zpos m = Zpos (fst (strip m e)) * 2 ^ (snd (strip m e) - e)
  /\ size m = size (fst (strip m e)) + (snd (strip m e) - e).
Proof.
  revert e. induction m as [m IH | m IH |]; intros e; cbn [strip fst snd].
  - rewrite Z.sub_diag, Z.pow_0_r. lia.
  - destruct (IH (e + 1)) as (Hle & Hval & Hsz).
    split; [lia | split].
    + replace (snd (strip m (e + 1)) - e)
        with (Z.succ (snd (strip m (e + 1)) - (e + 1))) by lia.
      rewrite Z.pow_succ_r by lia. lia.
    + unfold size in *. cbn [digits2_pos]. rewrite Pos2Z.inj_succ. lia.
  - rewrite Z.sub_diag, Z.pow_0_r. lia.
Qed.

(** An integer below [2^64] in magnitude is a [long double]: the conversion
    is exact and gives a finite value with a non-negative exponent. *)
Lemma to_long_double_exact (z : Z) :
  - 2 ^ 64 < z < 2 ^ 64 ->
  finite (to_long_double (VInt z)) = true
  /\ 0 <= expo (to_long_double (VInt z))
  /\ smant (to_long_double (VInt z)) * 2 ^ expo (to_long_double (VInt z)) = z.
Proof.
  intros Hz. cbn [to_long_double]. unfold float_of_int.
  destruct z as [| p | p]; [repeat split; discriminate | |].
  all: cbn [canon]; destruct (strip p 0) as [p' k] eqn:Hs;
    pose proof (strip_spec p 0) as (Hk & Hv & Hsz); rewrite Hs in *;
    cbn [fst snd] in *; rewrite Z.sub_0_r in *;
    pose proof (size_bound p) as Hb; pose proof (size_bound p') as Hb';
    assert (Hsp : size p <= 64)
      by (apply Z.nlt_ge; intros Hc;
          assert (2 ^ 64 <= 2 ^ (size p - 1)) by (apply Z.pow_le_mono_r; lia);
          lia);
    assert (0 < size p') by (unfold size; lia);
    rewrite fcast_representable
      by (unfold representable, long_double; cbn [fmt prec emax]; unfold emin;
          rewrite !andb_true_iff, !Z.leb_le; lia);
    cbn [finite expo smant cond_Zopp]; repeat split; lia.
Qed.

Lemma fcompare_finite (x y : spec_float) :
  finite x = true -> finite y = true ->
  fcompare x y
  = Some (smant x * 2 ^ (expo x - Z.min (expo x) (expo y))
          ?= smant y * 2 ^ (expo y - Z.min (expo x) (expo y))).
Proof. destruct x, y; try discriminate; reflexivity. Qed.

Lemma ftrunc_finite (x : spec_float) :
  finite x = true ->
  ftrunc x
  = Some (if 0 <=? expo x then smant x * 2 ^ expo x
          else Z.quot (smant x) (2 ^ (- expo x))).
Proof.
  destruct x as [s | s | | s m e]; try discriminate; intros _.
  - reflexivity.
  - cbn [ftrunc expo smant]. f_equal.
    destruct (0 <=? e) eqn:He.
    + destruct s; cbn [cond_Zopp]; lia.
    + apply Z.leb_gt in He.
      assert (0 < 2 ^ (- e)) by (apply Z.pow_pos_nonneg; lia).
      destruct s; cbn [cond_Zopp].
      * rewrite Z.quot_opp_l by lia. rewrite Z.quot_div_nonneg by lia. reflexivity.
      * now rewrite Z.quot_div_nonneg by lia.
Qed.

(** The truncation of a finite value that is not above (not below) the
    [long double] image of an integer is not above (not below) the
    integer. *)
Lemma ftrunc_bounds (x y : spec_float) (z V : Z) :
  finite x = true -> finite y = true ->
  0 <= expo y -> smant y * 2 ^ expo y = z ->
  ftrunc x = Some V ->
  (0 <= z -> fgt x y = false -> V <= z)
  /\ (z <= 0 -> flt x y = false -> z <= V).
Proof.
  intros Hx Hy Hey Hz HV.
  rewrite (ftrunc_finite x Hx) in HV. injection HV as HV.
  unfold fgt, flt. rewrite (fcompare_finite x y Hx Hy).
  set (e := expo x) in *. set (k := expo y) in *.
  set (a := smant x) in *. set (b := smant y) in *.
  destruct (0 <=? e) eqn:He.
  - apply Z.leb_le in He.
    assert (H0 : 0 <= Z.min e k) by lia.
    assert (Hp : 0 < 2 ^ Z.min e k) by (apply Z.pow_pos_nonneg; lia).
    assert (HA : a * 2 ^ (e - Z.min e k) * 2 ^ Z.min e k = V).
    { rewrite <- Z.mul_assoc, <- Z.pow_add_r by lia.
      replace (e - Z.min e k + Z.min e k) with e by lia. exact HV. }
    assert (HB : b * 2 ^ (k - Z.min e k) * 2 ^ Z.min e k = z).
    { rewrite <- Z.mul_assoc, <- Z.pow_add_r by lia.
      replace (k - Z.min e k + Z.min e k) with k by lia. exact Hz. }
    split; intros _;
      destruct (Z.compare_spec (a * 2 ^ (e - Z.min e k)) (b * 2 ^ (k - Z.min e k)));
      try discriminate; intros _; nia.
  - apply Z.leb_gt in He.
    rewrite Z.min_l by lia. rewrite Z.sub_diag, Z.pow_0_r, Z.mul_1_r.
    assert (Hp : 0 < 2 ^ (- e)) by (apply Z.pow_pos_nonneg; lia).
    assert (HB : b * 2 ^ (k - e) = z * 2 ^ (- e)).
    { replace (k - e) with (k + - e) by lia. rewrite Z.pow_add_r by lia.
      rewrite <- Hz. ring. }
    rewrite HB. subst V.
    split; intros Hs;
      destruct (Z.compare_spec a (z * 2 ^ (- e))) as [Heq | Hlt | Hgt];
      try discriminate; intros _.
    + rewrite Heq, Z.quot_mul by lia. lia.
    + destruct (Z.le_gt_cases 0 a).
      * rewrite Z.quot_div_nonneg by lia.
        apply Z.lt_le_incl, Z.div_lt_upper_bound; lia.
      * pose proof (Z.quot_opp_l a (2 ^ (- e))).
        assert (0 <= Z.quot (- a) (2 ^ (- e))) by (apply Z.quot_pos; lia).
        lia.
    + rewrite Heq, Z.quot_mul by lia. lia.
    + destruct (Z.le_gt_cases a 0).
      * assert (Hq : Z.quot (- a) (2 ^ (- e)) <= - z).
        { rewrite Z.quot_div_nonneg by lia.
          apply Z.lt_le_incl, Z.div_lt_upper_bound; lia. }
        rewrite Z.quot_opp_l in Hq by lia. lia.
      * assert (0 <= Z.quot a (2 ^ (- e))) by (apply Z.quot_pos; lia). lia.
Qed.

(** ** Round trips *)

Lemma ull_neg_to_ull_negative (z : Z) :
  - 2 ^ 63 <= z < 0 -> ull_neg (to_ull z) = - z.
Proof.
  intros Hz. unfold ull_neg, to_ull, unsigned_long_long; cbn [to_integral].
  change (bits W64) with 64.
  replace (z mod 2 ^ 64) with (z + 2 ^ 64).
  2:{ apply Z.mod_unique with (q := -1); lia. }
  symmetry. apply Z.mod_unique with (q := -1); lia.
Qed.

Lemma round_trip_integral (Ti : integral) (z : Z) :
  in_range Ti z = true ->
  gsi._ConvertTo (Integral Ti) (gsi.val (Integral Ti) (VInt z)) = Return (VInt z).
Proof.
  intros Hr. pose proof Hr as Hb. unfold in_range in Hb.
  apply andb_true_iff in Hb as [Hl Hh]. apply Z.leb_le in Hl, Hh.
  pose proof (int_bounds Ti) as [Hlow Hmax].
  cbn [gsi.val]. destruct (signed_integral Ti) eqn:Hs; cbn [gsi._ConvertTo].
  - unfold gsi.val_signed. destruct (z >=? 0) eqn:Hz.
    + apply Z.geb_le in Hz. rewrite to_ull_small by lia.
      rewrite constinteger_to_integral. cbn [andb orb negb].
      rewrite (proj2 (gtb_le _ _)) by lia.
      now rewrite to_integral_in_range.
    + rewrite Z.geb_leb in Hz. apply Z.leb_gt in Hz.
      rewrite ull_neg_to_ull_negative by lia.
      rewrite constinteger_to_integral. cbn [andb orb negb].
      rewrite (proj2 (gtb_le _ _)) by lia. cbn [orb].
      rewrite to_integral_neg_magnitude by lia.
      now rewrite Z.opp_involutive.
  - assert (0 <= z) by (destruct Ti as [|[] w]; cbn in *; try discriminate; lia).
    unfold gsi.val_unsigned. rewrite to_ull_small by lia.
    rewrite constinteger_to_integral. cbn [andb orb negb].
    rewrite (proj2 (gtb_le _ _)) by lia.
    now rewrite to_integral_in_range.
Qed.

Lemma round_trip_floating (Tf : floating) (x : spec_float) :
  representable (fmt Tf) x = true ->
  gsi._ConvertTo (Floating Tf) (gsi.val (Floating Tf) (VFlt x))
  = if finite x then Return (VFlt x) else Throw bad_value_preserving_cast.
Proof.
  intros Hrep.
  cbn [gsi.val gsi._ConvertTo]. unfold gsi.val_floating, gsi.val_long_double.
  rewrite (fcast_representable long_double x)
    by (apply (representable_long_double Tf), Hrep).
  unfold gsi.constreal_operator_Up; cbn [gsi.real_M_value].
  rewrite to_long_double_max, to_long_double_lowest.
  destruct (finite x) eqn:Hfin.
  - destruct (within_float_limits Tf x Hfin Hrep) as [-> ->]. cbn [orb].
    cbn [of_long_double bind]. rewrite (fcast_representable _ x Hrep).
    cbn [to_long_double].
    rewrite (fcast_representable long_double x)
      by (apply (representable_long_double Tf), Hrep).
    unfold fne. rewrite feq_refl; [reflexivity |].
    destruct x; discriminate.
  - destruct x as [s | [] | | s m e]; try discriminate; destruct Tf; reflexivity.
Qed.

(** C3.  Round trip.  For every arithmetic type and every value of it, the
    literal that the matching [val] overload builds converts back to the
    type and yields the value, provided the value is finite: every value of
    an integral type, the minimum of each signed type included, and every
    zero, subnormal and normal number of a floating-point type.  For an
    infinity or NaN the conversion throws. *)
Theorem C3_round_trip (T : arith) (t : value) (Ht : has_type T t = true) :
  gsi._ConvertTo T (gsi.val T t)
  = (if finite_value t then Return t else Throw bad_value_preserving_cast)
  /\ (forall w : width,
         gsi.int_M_value (gsi.val_signed (int_lowest (Int true w)))
         = - int_lowest (Int true w)
         /\ gsi.constinteger_operator_Up (Integral (Int true w))
              (gsi.val_signed (int_lowest (Int true w)))
            = Return (VInt (int_lowest (Int true w)))).
Proof.
  split.
  - destruct T as [Ti | Tf], t as [z | x]; try discriminate Ht.
    + now apply round_trip_integral.
    + cbn [has_type] in Ht. apply andb_true_iff in Ht as [_ Hrep].
      now apply round_trip_floating.
  - intros []; split; reflexivity.
Qed.

Lemma C3_round_trip_witness :
  has_type (Integral int) (VInt (- 0x80000000)) = true
  /\ gsi._ConvertTo (Integral int) (gsi.val (Integral int) (VInt (- 0x80000000)))
     = Return (VInt (- 0x80000000)).
Proof.
  split; [reflexivity |].
  exact (proj1 (C3_round_trip (Integral int) (VInt (- 0x80000000)) eq_refl)).
Defined.

(** Counterexample to the round trip of C3 taken over every value: [val]
    accepts the [float] infinity and the conversion back throws. *)
Lemma C3_round_trip_counterexample :
  has_type (Floating Float) (VFlt (S754_infinity false)) = true
  /\ gsi._ConvertTo (Floating Float)
       (gsi.val (Floating Float) (VFlt (S754_infinity false)))
     = Throw bad_value_preserving_cast
  /\ gsi._ConvertTo (Floating Float)
       (gsi.val (Floating Float) (VFlt (S754_infinity false)))
     <> Return (VFlt (S754_infinity false)).
Proof. repeat split. discriminate. Qed.

(** ** Operators restricted to integral types *)

(** Counterexample to C2 taken with integer literals only: [7 % 2.0_val] on
    an [int] is defined and is 1; the operator exists in both operand orders
    and as compound assignment, and [7 % 2.5_val] throws. *)
Lemma C2_real_literal_modulo_counterexample :
  gsi.binary_right Mod (Integral int) (VInt 7)
    (gsi.LReal (gsi.operator_val_real Lit.real_2_0)) = Some (Return (VInt 1))
  /\ gsi.binary_left Mod (Integral int)
       (gsi.LReal (gsi.operator_val_real Lit.real_2_0)) (VInt 7)
     = Some (Return (VInt 2))
  /\ gsi.binary_right Mod (Integral int) (VInt 7)
       (gsi.LReal (gsi.operator_val_real Lit.real_2_5))
     = Some (Throw bad_value_preserving_cast)
  /\ gsi.compound_assign Mod (Integral int) (VInt 7)
       (gsi.LReal (gsi.operator_val_real Lit.real_2_0)) <> None.
Proof. repeat split. discriminate. Qed.

(** ** Conversions that leave constant evaluation *)

(** What the rest of C5 says does hold of a floating-point target: the
    conversion throws when the value is beyond the limits or does not
    survive the cast there and back, and returns the cast value otherwise. *)
Lemma constreal_to_floating (Tf : floating) (c : gsi.constreal) :
  gsi.constreal_operator_Up (Floating Tf) c
  = if fgt (gsi.real_M_value c) (float_max (fmt Tf))
       || flt (gsi.real_M_value c) (SFopp (float_max (fmt Tf)))
       || fne (fcast long_double (fcast (fmt Tf) (gsi.real_M_value c)))
            (gsi.real_M_value c)
    then Throw bad_value_preserving_cast
    else Return (VFlt (fcast (fmt Tf) (gsi.real_M_value c))).
Proof.
  unfold gsi.constreal_operator_Up.
  rewrite to_long_double_max, to_long_double_lowest.
  destruct (fgt _ _ || flt _ _); [reflexivity |].
  cbn [orb of_long_double bind to_long_double].
  destruct (fne _ _); reflexivity.
Qed.

(** Past the range check, a value other than NaN truncates to a value of
    the integral type: the cast is defined. *)
Lemma int_of_float_defined (Ti : integral) (x : spec_float) :
  x <> S754_nan ->
  fgt x (to_long_double (max_ (Integral Ti)))
  || flt x (to_long_double (lowest (Integral Ti))) = false ->
  exists z, int_of_float Ti x = Return z /\ in_range Ti z = true.
Proof.
  intros Hnan Hrange. apply orb_false_iff in Hrange as [Hgt Hlt].
  cbn [max_ lowest] in *.
  pose proof (int_bounds Ti) as [Hlow Hmax].
  destruct (to_long_double_exact (int_max Ti)) as (Hfm & Hem & Hvm); [lia |].
  destruct (to_long_double_exact (int_lowest Ti)) as (Hfl & Hel & Hvl); [lia |].
  destruct (finite x) eqn:Hfin.
  - assert (Hin : forall V, ftrunc x = Some V -> in_range Ti V = true).
    { intros V HV. unfold in_range. apply andb_true_iff.
      destruct (ftrunc_bounds x _ _ V Hfin Hfm Hem Hvm HV) as [Hup _].
      destruct (ftrunc_bounds x _ _ V Hfin Hfl Hel Hvl HV) as [_ Hdn].
      split; apply Z.leb_le; [apply Hdn | apply Hup]; (lia || assumption). }
    destruct Ti as [| sg w].
    + cbn [int_of_float]. eexists; split; [reflexivity |].
      destruct (fis_zero x); reflexivity.
    + cbn [int_of_float]. rewrite (ftrunc_finite x Hfin) in *.
      rewrite (Hin _ eq_refl). eexists; split; [reflexivity |].
      now apply Hin.
  - exfalso. destruct x as [s | [] | | s m e]; try discriminate; try congruence.
    + destruct (to_long_double (VInt (int_lowest Ti))); try discriminate Hfl;
        cbv in Hlt; discriminate Hlt.
    + destruct (to_long_double (VInt (int_max Ti))); try discriminate Hfm;
        cbv in Hgt; discriminate Hgt.
Qed.

(** What C5 says holds of an integral target for every value but NaN: the
    conversion throws when the value is beyond the limits or differs from
    its cast taken back to [long double], returns the cast value otherwise,
    and is never undefined. *)
Lemma constreal_to_integral (Ti : integral) (c : gsi.constreal) :
  gsi.real_M_value c <> S754_nan ->
  match gsi.constreal_operator_Up (Integral Ti) c with
  | Throw _ =>
      fgt (gsi.real_M_value c) (to_long_double (max_ (Integral Ti)))
      || flt (gsi.real_M_value c) (to_long_double (lowest (Integral Ti))) = true
      \/ exists r, of_long_double (Integral Ti) (gsi.real_M_value c) = Return r
                   /\ fne (to_long_double r) (gsi.real_M_value c) = true
  | Return r =>
      fgt (gsi.real_M_value c) (to_long_double (max_ (Integral Ti)))
      || flt (gsi.real_M_value c) (to_long_double (lowest (Integral Ti))) = false
      /\ of_long_double (Integral Ti) (gsi.real_M_value c) = Return r
      /\ fne (to_long_double r) (gsi.real_M_value c) = false
      /\ has_type (Integral Ti) r = true
  | Undefined => False
  end.
Proof.
  intros Hnan. unfold gsi.constreal_operator_Up.
  destruct (fgt _ _ || flt _ _) eqn:Hrange; [now left |].
  destruct (int_of_float_defined Ti _ Hnan Hrange) as (z & Hz & Hin).
  cbn [of_long_double]. rewrite Hz. cbn [bind].
  destruct (fne _ _) eqn:Hne.
  - right. exists (VInt z). now split.
  - cbn [bind]. repeat split; assumption.
Qed.

(** To [long double] every integer literal converts: the candidate is exact
    and comes back as the magnitude. *)
Lemma constinteger_to_long_double (m : Z) (neg : bool) :
  0 <= m < 2 ^ 64 ->
  gsi.constinteger_operator_Up (Floating LongDouble) (gsi.Constinteger m neg)
  = Return (VFlt (if neg then SFopp (float_of_int long_double m)
                  else float_of_int long_double m)).
Proof.
  intros Hm. unfold gsi.constinteger_operator_Up.
  cbn [gsi.int_M_value gsi.int_M_negative]. fold long_double.
  destruct (to_long_double_exact m) as (Hf & He & Hv); [lia |].
  cbn [to_long_double] in *.
  assert (Hback : int_of_float unsigned_long_long (float_of_int long_double m)
                  = Return m).
  { unfold int_of_float, unsigned_long_long.
    rewrite (ftrunc_finite _ Hf).
    rewrite (proj2 (Z.leb_le _ _) He), Hv.
    replace (in_range (Int false W64) m) with true; [reflexivity |].
    symmetry. unfold in_range. apply andb_true_iff.
    split; apply Z.leb_le; cbn; lia. }
  rewrite Hback. cbn [bind]. now rewrite Z.eqb_refl.
Qed.

(** The floating-point branch has the two outcomes of C6 whenever the
    candidate comes back as an [unsigned long long], and is undefined when
    it does not. *)
Lemma constinteger_to_floating (Tf : floating) (c : gsi.constinteger) :
  gsi.constinteger_operator_Up (Floating Tf) c
  = match int_of_float unsigned_long_long
            (float_of_int (fmt Tf) (gsi.int_M_value c)) with
    | Return back =>
        if back =? gsi.int_M_value c
        then Return (VFlt (if gsi.int_M_negative c
                           then SFopp (float_of_int (fmt Tf) (gsi.int_M_value c))
                           else float_of_int (fmt Tf) (gsi.int_M_value c)))
        else Throw bad_value_preserving_cast
    | Throw e => Throw e
    | Undefined => Undefined
    end.
Proof.
  unfold gsi.constinteger_operator_Up.
  destruct (int_of_float _ _) as [back | e |]; cbn [bind]; try reflexivity.
  destruct (back =? _); reflexivity.
Qed.

(** The [long double] taken for [0.1] is within half a unit in the last
    place of one tenth: [|m * 2^-67 - 1/10| <= 2^-68]. *)
Lemma real_0_1_is_nearest :
  Lit.real_0_1 = S754_finite false 0xCCCCCCCCCCCCCCCD (-67)
  /\ size 0xCCCCCCCCCCCCCCCD = 64
  /\ Z.abs (10 * 0xCCCCCCCCCCCCCCCD - 2 ^ 67) <= 5.
Proof. repeat split. vm_compute. discriminate. Qed.

(** C5.  The real literal [0.1] does not convert to [float] and [0.5] does;
    a real literal holding NaN passes both comparisons of the range check,
    and its conversion to [short] then casts NaN to an integer, which is
    undefined: the conversion neither throws nor returns. *)
Theorem C5_real_literal_conversion_at_nan :
  gsi.constreal_operator_Up (Floating Float) (gsi.operator_val_real Lit.real_0_1)
  = Throw bad_value_preserving_cast
  /\ gsi.constreal_operator_Up (Floating Float) (gsi.operator_val_real Lit.real_0_5)
     = Return (VFlt Lit.real_0_5)
  /\ fgt S754_nan (to_long_double (max_ (Integral short))) = false
  /\ flt S754_nan (to_long_double (lowest (Integral short))) = false
  /\ of_long_double (Integral short) S754_nan = Undefined
  /\ gsi.constreal_operator_Up (Integral short) (gsi.val_long_double S754_nan)
     = Undefined.
Proof. repeat split. Qed.

(** C6.  The largest magnitude, [0xFFFFFFFFFFFFFFFF], rounds to [2^64] as a
    [float] and as a [double]; converting that candidate back to
    [unsigned long long] is undefined, so the conversion of the literal
    neither throws nor returns.  To [long double] it returns. *)
Theorem C6_integer_literal_to_floating_at_largest_magnitude :
  float_of_int (fmt Float) 0xFFFFFFFFFFFFFFFF = S754_finite false 1 64
  /\ int_of_float unsigned_long_long (S754_finite false 1 64) = Undefined
  /\ gsi.constinteger_operator_Up (Floating Float)
       (gsi.operator_val_integer 0xFFFFFFFFFFFFFFFF) = Undefined
  /\ gsi.constinteger_operator_Up (Floating Double)
       (gsi.operator_val_integer 0xFFFFFFFFFFFFFFFF) = Undefined
  /\ gsi.constinteger_operator_Up (Floating Float)
       (gsi.operator_val_integer 0xFFFFFF8000000000) = Undefined
  /\ gsi.constinteger_operator_Up (Floating Float)
       (gsi.operator_val_integer 0xFFFFFF7FFFFFFFFF)
     = Throw bad_value_preserving_cast
  /\ gsi.constinteger_operator_Up (Floating LongDouble)
       (gsi.operator_val_integer 0xFFFFFFFFFFFFFFFF)
     = Return (VFlt (S754_finite false 0xFFFFFFFFFFFFFFFF 0)).
Proof. repeat split. Qed.

(** C10.  Constructing a real literal from NaN returns.  Its conversion
    throws for [bool] and for the three floating-point types, and is
    undefined for every other integral type, where the cast of NaN to the
    integer type comes before the comparison. *)
Theorem C10_nan_real_literal_conversion (T : arith) :
  gsi.val_long_double S754_nan = gsi.Constreal S754_nan
  /\ gsi.constreal_operator_Up T (gsi.val_long_double S754_nan)
     = match T with
       | Integral (Int _ _) => Undefined
       | _ => Throw bad_value_preserving_cast
       end.
Proof.
  split; [reflexivity |].
  destruct T as [[|[] []] | []]; reflexivity.
Qed.

(** * Further properties of the conversions and operators *)

(** ** Rounding to a format *)

Lemma shr_1_spec (mrs : shr_record) :
  0 <= shr_m mrs ->
  shr_m (shr_1 mrs) = shr_m mrs / 2.
Proof.
  destruct mrs as [m r s]; cbn [shr_m]. intros Hm.
  destruct m as [| [p | p |] | p]; cbn [shr_1 shr_m]; try lia.
  - apply Z.div_unique with (r := 0); lia.
  - apply Z.div_unique with (r := 1); lia.
  - apply Z.div_unique with (r := 0); lia.
  - apply Z.div_unique with (r := 1); lia.
Qed.

Lemma iter_shr_1_spec (d : positive) (mrs : shr_record) :
  0 <= shr_m mrs ->
  shr_m (iter_pos shr_1 d mrs) = shr_m mrs / 2 ^ Zpos d.
Proof.
  revert mrs. induction d as [d IH | d IH |]; intros mrs Hm; cbn [iter_pos].
  - assert (H1 : 0 <= shr_m (shr_1 mrs)).
    { rewrite shr_1_spec by assumption. apply Z.div_pos; lia. }
    assert (Hp : 0 < 2 ^ Zpos d) by (apply Z.pow_pos_nonneg; lia).
    assert (H2 : 0 <= shr_m (iter_pos shr_1 d (shr_1 mrs))).
    { rewrite IH by assumption. apply Z.div_pos; lia. }
    rewrite IH, IH, shr_1_spec by assumption.
    rewrite !Z.div_div by lia.
    f_equal. replace (Zpos d~1) with (1 + Zpos d + Zpos d) by lia.
    rewrite !Z.pow_add_r by lia. rewrite Z.pow_1_r. ring.
  - assert (Hp : 0 < 2 ^ Zpos d) by (apply Z.pow_pos_nonneg; lia).
    assert (H2 : 0 <= shr_m (iter_pos shr_1 d mrs)).
    { rewrite IH by assumption. apply Z.div_pos; lia. }
    rewrite IH, IH by assumption.
    rewrite !Z.div_div by lia.
    f_equal. replace (Zpos d~0) with (Zpos d + Zpos d) by lia.
    rewrite !Z.pow_add_r by lia. ring.
  - rewrite shr_1_spec by assumption. reflexivity.
Qed.

Lemma Zdigits2_bound (m k : Z) :
  0 <= m < 2 ^ k -> 0 <= k -> Zdigits2 m <= k.
Proof.
  intros [Hm Hlt] Hk. destruct m as [| p | p]; cbn [Zdigits2]; try lia.
  pose proof (size_bound p) as [Hlo _]. unfold size in Hlo.
  apply Z.nlt_ge. intros Hc.
  assert (2 ^ k <= 2 ^ (Zpos (digits2_pos p) - 1)) by (apply Z.pow_le_mono_r; lia).
  lia.
Qed.

Lemma Zdigits2_lt (m : Z) : 0 <= m -> m < 2 ^ Zdigits2 m.
Proof.
  intros Hm. destruct m as [| p | p]; cbn [Zdigits2]; try lia.
  apply (size_bound p).
Qed.

Lemma Zdigits2_nonneg (m : Z) : 0 <= Zdigits2 m.
Proof. destruct m; cbn; lia. Qed.

Lemma Zdigits2_shift (m : Z) (d : positive) :
  0 <= m -> Zdigits2 (m / 2 ^ Zpos d) <= Z.max 0 (Zdigits2 m - Zpos d).
Proof.
  intros Hm. pose proof (Zdigits2_lt m Hm) as Hlt.
  pose proof (Zdigits2_nonneg m) as Hd.
  assert (Hp : 0 < 2 ^ Zpos d) by (apply Z.pow_pos_nonneg; lia).
  apply Zdigits2_bound; [| lia].
  split; [apply Z.div_pos; lia |].
  apply Z.div_lt_upper_bound; [lia |].
  destruct (Z.le_gt_cases (Zpos d) (Zdigits2 m)).
  - rewrite Z.max_r by lia. rewrite <- Z.pow_add_r by lia.
    now replace (Zpos d + (Zdigits2 m - Zpos d)) with (Zdigits2 m) by lia.
  - rewrite Z.max_l by lia. rewrite Z.pow_0_r, Z.mul_1_r.
    apply Z.lt_le_trans with (1 := Hlt). apply Z.pow_le_mono_r; lia.
Qed.

Section Rounding.

Variables prec emax : Z.
Hypothesis prec_pos : 0 < prec.

Lemma shr_m_of_loc (m : Z) (l : location) : shr_m (shr_record_of_loc m l) = m.
Proof. destruct l as [| []]; reflexivity. Qed.

(** After [shr_fexp] the mantissa fits the precision and the exponent has
    not gone down. *)
Lemma shr_fexp_spec (m e : Z) (l : location) :
  0 <= m ->
  0 <= shr_m (fst (shr_fexp prec emax m e l))
  /\ Zdigits2 (shr_m (fst (shr_fexp prec emax m e l))) <= prec
  /\ emin prec emax <= snd (shr_fexp prec emax m e l)
  /\ e <= snd (shr_fexp prec emax m e l)
  /\ fexp prec emax (Zdigits2 m + e) <= snd (shr_fexp prec emax m e l).
Proof.
  intros Hm. unfold shr_fexp, shr.
  pose proof (Zdigits2_nonneg m) as Hd.
  assert (Hf : fexp prec emax (Zdigits2 m + e)
               = Z.max (Zdigits2 m + e - prec) (emin prec emax)) by reflexivity.
  destruct (fexp prec emax (Zdigits2 m + e) - e) as [| p | p] eqn:Hn;
    cbn [fst snd]; rewrite ?shr_m_of_loc.
  - repeat split; lia.
  - rewrite iter_shr_1_spec by (rewrite shr_m_of_loc; exact Hm).
    rewrite shr_m_of_loc.
    assert (Hp : 0 < 2 ^ Zpos p) by (apply Z.pow_pos_nonneg; lia).
    pose proof (Zdigits2_shift m p Hm).
    repeat split; try lia. apply Z.div_pos; lia.
  - repeat split; lia.
Qed.

Lemma round_nearest_even_nonneg (m : Z) (l : location) :
  0 <= m -> 0 <= round_nearest_even m l.
Proof. intros Hm. destruct l as [| []]; cbn; try destruct (Z.even m); lia. Qed.

(** What [binary_round_aux] returns, when finite, is a number of the
    format, and its exponent is at least the one it was given and at least
    the exponent of the format at that magnitude. *)
Lemma binary_round_aux_spec (sx : bool) (mx ex : Z) (lx : location) :
  0 <= mx ->
  match binary_round_aux prec emax sx mx ex lx with
  | S754_finite s m e =>
      s = sx /\ size m <= prec /\ emin prec emax <= e /\ e <= emax - prec
      /\ ex <= e /\ fexp prec emax (Zdigits2 mx + ex) <= e
  | S754_zero s | S754_infinity s => s = sx
  | S754_nan => False
  end.
Proof.
  intros Hm. unfold binary_round_aux.
  pose proof (shr_fexp_spec mx ex lx Hm) as (H1 & _ & _ & H1e & H1f).
  destruct (shr_fexp prec emax mx ex lx) as [mrs' e']. cbn [fst snd] in *.
  pose proof (shr_fexp_spec
                (round_nearest_even (shr_m mrs') (loc_of_shr_record mrs')) e'
                loc_Exact (round_nearest_even_nonneg _ _ H1))
    as (H2 & H2d & H2m & H2e & _).
  destruct (shr_fexp prec emax _ e' loc_Exact) as [mrs'' e'']. cbn [fst snd] in *.
  destruct (shr_m mrs'') as [| m | m]; [reflexivity | | lia].
  destruct (e'' <=? emax - prec) eqn:He; [| reflexivity].
  apply Z.leb_le in He. cbn [Zdigits2] in H2d. unfold size. repeat split; lia.
Qed.

Lemma binary_round_spec (sx : bool) (mx : positive) (ex : Z) :
  match binary_round prec emax sx mx ex with
  | S754_finite s m e =>
      s = sx /\ size m <= prec /\ emin prec emax <= e /\ e <= emax - prec
      /\ (ex < fexp prec emax (size mx + ex) -> ex < e)
  | S754_zero s | S754_infinity s => s = sx
  | S754_nan => False
  end.
Proof.
  unfold binary_round, shl_align. fold (size mx).
  destruct (fexp prec emax (size mx + ex) - ex) as [| d | d] eqn:Hd.
  - pose proof (binary_round_aux_spec sx (Zpos mx) ex loc_Exact (Pos2Z.is_nonneg _)) as H.
    destruct (binary_round_aux _ _ _ _ _ _); try exact H. 
    destruct H as (? & ? & ? & ? & ? & ?). repeat split; try assumption; lia.
  - pose proof (binary_round_aux_spec sx (Zpos mx) ex loc_Exact (Pos2Z.is_nonneg _)) as H.
    destruct (binary_round_aux _ _ _ _ _ _); try exact H.
    destruct H as (? & ? & ? & ? & ? & Hf). cbn [Zdigits2] in Hf. fold (size mx) in Hf.
    repeat split; try assumption; lia.
  - pose proof (binary_round_aux_spec sx (Zpos (Pos.iter xO mx d))
                  (fexp prec emax (size mx + ex)) loc_Exact (Pos2Z.is_nonneg _)) as H.
    destruct (binary_round_aux _ _ _ _ _ _); try exact H.
    destruct H as (? & ? & ? & ? & ? & ?). repeat split; try assumption; lia.
Qed.

End Rounding.

Lemma strip_odd (m : positive) (e : Z) :
  odd_mantissa (S754_finite false (fst (strip m e)) 0) = true.
Proof. revert e. induction m; intros e; cbn [strip fst]; auto. Qed.

Lemma canon_odd (x : spec_float) : odd_mantissa (canon x) = true.
Proof.
  destruct x as [s | s | | s m e]; try reflexivity.
  cbn [canon]. pose proof (strip_odd m e) as H.
  destruct (strip m e) as [m' e']. exact H.
Qed.

Lemma canon_representable (f : format) (s : bool) (m : positive) (e : Z) :
  size m <= prec f -> emin (prec f) (emax f) <= e -> e <= emax f - prec f ->
  representable f (canon (S754_finite s m e)) = true.
Proof.
  intros Hs Hlo Hhi. cbn [canon].
  pose proof (strip_spec m e) as (Hle & _ & Hsz).
  destruct (strip m e) as [m' e']. cbn [fst snd] in *.
  assert (0 < size m') by (unfold size; lia).
  cbn [representable]. rewrite !andb_true_iff, !Z.leb_le. lia.
Qed.

(** Rounding gives a number of the format, in the odd-mantissa form. *)
Lemma fround_representable (f : format) (x : spec_float) :
  0 < prec f ->
  representable f (fround f x) = true
  /\ (odd_mantissa x = true -> odd_mantissa (fround f x) = true).
Proof.
  intros Hp. destruct x as [s | s | | s m e]; try (split; auto; reflexivity).
  cbn [fround].
  assert (Hn : binary_normalize (prec f) (emax f) (cond_Zopp s (Zpos m)) e s
               = binary_round (prec f) (emax f) s m e) by (destruct s; reflexivity).
  rewrite Hn.
  pose proof (binary_round_spec (prec f) (emax f) Hp s m e) as H.
  destruct (binary_round _ _ _ _ _) as [s' | s' | | s' m' e'];
    try (split; reflexivity).
  destruct H as (_ & Hs & Hlo & Hhi & _).
  split; [now apply canon_representable | intros _; apply canon_odd].
Qed.

(** Rounding a number whose exponent is below the exponent of the format
    at that magnitude gives zero, an infinity or a number of larger
    exponent. *)
Lemma fround_exponent (f : format) (s : bool) (m : positive) (e : Z) :
  0 < prec f ->
  e < fexp (prec f) (emax f) (size m + e) ->
  match fround f (S754_finite s m e) with
  | S754_finite _ _ e' => e < e'
  | S754_nan => False
  | _ => True
  end.
Proof.
  intros Hp He. cbn [fround].
  assert (Hn : binary_normalize (prec f) (emax f) (cond_Zopp s (Zpos m)) e s
               = binary_round (prec f) (emax f) s m e) by (destruct s; reflexivity).
  rewrite Hn.
  pose proof (binary_round_spec (prec f) (emax f) Hp s m e) as H.
  destruct (binary_round _ _ _ _ _) as [s' | s' | | s' m' e']; try exact I;
    [contradiction |].
  destruct H as (_ & _ & _ & _ & Hgt). specialize (Hgt He).
  cbn [canon]. pose proof (strip_spec m' e') as (Hle & _).
  destruct (strip m' e') as [m'' e'']. cbn [snd] in Hle. lia.
Qed.

(** ** Values in the odd-mantissa form *)

Lemma odd_mantissa_parity (s : bool) (m : positive) (e : Z) :
  odd_mantissa (S754_finite s m e) = true -> exists q, Zpos m = 2 * q + 1.
Proof.
  destruct m as [p | p |]; cbn; intros H; try discriminate.
  - exists (Zpos p). lia.
  - exists 0. lia.
Qed.

Lemma cond_Zopp_inj (s s' : bool) (m m' : positive) :
  cond_Zopp s (Zpos m) = cond_Zopp s' (Zpos m') -> s = s' /\ m = m'.
Proof.
  destruct s, s'; cbn [cond_Zopp]; intros H; try lia;
    split; try reflexivity; lia.
Qed.

(** Two values in the odd-mantissa form that compare equal are the same
    value, or are both zeros. *)
Lemma feq_canonical (x y : spec_float) :
  odd_mantissa x = true -> odd_mantissa y = true -> feq x y = true ->
  x = y \/ (fis_zero x = true /\ fis_zero y = true).
Proof.
  intros Hx Hy. unfold feq, fcompare.
  destruct x as [s | s | | s m e], y as [s' | s' | | s' m' e'];
    cbn [smant expo fis_zero]; try discriminate;
    try (destruct s; discriminate); try (destruct s'; discriminate).
  - intros _. now right.
  - rewrite ?Z.mul_0_l.
    assert (0 < 2 ^ (e' - Z.min 0 e')) by (apply Z.pow_pos_nonneg; lia).
    match goal with
    | |- context [?a ?= ?b] => destruct (Z.compare_spec a b)
    end; try discriminate.
    destruct s'; cbn [cond_Zopp] in *; nia.
  - destruct s, s'; cbn; intros H; try discriminate; now left.
  - rewrite ?Z.mul_0_l.
    assert (0 < 2 ^ (e - Z.min e 0)) by (apply Z.pow_pos_nonneg; lia).
    match goal with
    | |- context [?a ?= ?b] => destruct (Z.compare_spec a b)
    end; try discriminate.
    destruct s; cbn [cond_Zopp] in *; nia.
  - destruct (odd_mantissa_parity s m e Hx) as [q Hq].
    destruct (odd_mantissa_parity s' m' e' Hy) as [q' Hq'].
    destruct (Z.compare_spec (cond_Zopp s (Zpos m) * 2 ^ (e - Z.min e e'))
                (cond_Zopp s' (Zpos m') * 2 ^ (e' - Z.min e e'))) as [Heq | |];
      try discriminate.
    intros _. left.
    destruct (Z.lt_trichotomy e e') as [Hlt | [-> | Hgt]].
    + exfalso. rewrite Z.min_l, Z.sub_diag, Z.pow_0_r, Z.mul_1_r in Heq by lia.
      replace (e' - e) with (Z.succ (e' - e - 1)) in Heq by lia.
      rewrite Z.pow_succ_r in Heq by lia.
      destruct s, s'; cbn [cond_Zopp] in Heq; lia.
    + rewrite Z.min_id, Z.sub_diag, Z.pow_0_r, !Z.mul_1_r in Heq.
      apply cond_Zopp_inj in Heq as [-> ->]. reflexivity.
    + exfalso. rewrite Z.min_r, Z.sub_diag, Z.pow_0_r, Z.mul_1_r in Heq by lia.
      replace (e - e') with (Z.succ (e - e' - 1)) in Heq by lia.
      rewrite Z.pow_succ_r in Heq by lia.
      destruct s, s'; cbn [cond_Zopp] in Heq; lia.
Qed.

Lemma fmt_facts (Tf : floating) :
  0 < prec (fmt Tf) <= 64 /\ 128 <= emax (fmt Tf)
  /\ emin (prec (fmt Tf)) (emax (fmt Tf)) = 3 - emax (fmt Tf) - prec (fmt Tf).
Proof. destruct Tf; cbn; lia. Qed.

Lemma fgt_infinity_max (Tf : floating) :
  fgt (S754_infinity false) (float_max (fmt Tf)) = true
  /\ flt (S754_infinity true) (SFopp (float_max (fmt Tf))) = true.
Proof. destruct Tf; split; reflexivity. Qed.

(** ** A real literal converts to a floating-point type only unchanged *)

Lemma real_to_floating_exact (Tf : floating) (v : spec_float)
    (Hv : has_type (Floating LongDouble) (VFlt v) = true) :
  (forall r, gsi.constreal_operator_Up (Floating Tf) (gsi.Constreal v) = Return r ->
             r = VFlt v)
  /\ (gsi.constreal_operator_Up (Floating Tf) (gsi.Constreal v) = Return (VFlt v)
      <-> finite v = true /\ representable (fmt Tf) v = true)
  /\ (gsi.constreal_operator_Up (Floating Tf) (gsi.Constreal v) <> Undefined).
Proof.
  cbn [has_type] in Hv. apply andb_true_iff in Hv as [Hodd _].
  destruct (fmt_facts Tf) as ((Hp & _) & _).
  assert (Hret : forall r,
             gsi.constreal_operator_Up (Floating Tf) (gsi.Constreal v) = Return r ->
             r = VFlt v /\ finite v = true /\ representable (fmt Tf) v = true).
  { intros r. rewrite constreal_to_floating. cbn [gsi.real_M_value].
    destruct (fgt v _) eqn:Hgt; [discriminate |].
    destruct (flt v _) eqn:Hlt; [discriminate |].
    cbn [orb]. unfold fne. destruct (feq _ v) eqn:Heq; [| discriminate].
    cbn [negb]. intros [= <-].
    assert (Hfin : finite v = true).
    { destruct v as [s | [] | | s m e]; try reflexivity.
      - now rewrite (proj2 (fgt_infinity_max Tf)) in Hlt.
      - now rewrite (proj1 (fgt_infinity_max Tf)) in Hgt.
      - unfold fcast in Heq. cbn in Heq. discriminate. }
    destruct (representable (fmt Tf) v) eqn:Hrep.
    - now rewrite fcast_representable.
    - exfalso.
      assert (Hc : fcast (fmt Tf) v = fround (fmt Tf) v)
        by (unfold fcast; now rewrite Hrep).
      rewrite Hc in Heq.
      destruct (fround_representable (fmt Tf) v Hp) as [Hw Hwo].
      rewrite (fcast_representable long_double) in Heq
        by (apply (representable_long_double Tf), Hw).
      destruct (feq_canonical _ _ (Hwo Hodd) Hodd Heq) as [Hsame | [_ Hz]].
      + rewrite Hsame in Hw. congruence.
      + destruct v; try discriminate. }
  split; [| split].
  - intros r Hr. apply (Hret r Hr).
  - split.
    + intros Hr. apply (Hret _ Hr).
    + intros [Hfin Hrep].
      pose proof (round_trip_floating Tf v Hrep) as Hrt.
      cbn [gsi.val gsi._ConvertTo] in Hrt.
      unfold gsi.val_floating, gsi.val_long_double in Hrt.
      rewrite (fcast_representable long_double v) in Hrt
        by (apply (representable_long_double Tf), Hrep).
      now rewrite Hfin in Hrt.
  - rewrite constreal_to_floating. destruct (_ || _); discriminate.
Qed.

(** ** An integer literal converts to a floating-point type only unchanged *)

Lemma canon_integer (s : bool) (p : positive) :
  exists p' k,
    canon (S754_finite s p 0) = S754_finite s p' k
    /\ 0 <= k /\ Zpos p = Zpos p' * 2 ^ k /\ size p = size p' + k
    /\ odd_mantissa (S754_finite s p' k) = true.
Proof.
  pose proof (strip_spec p 0) as (Hk & Hv & Hsz).
  pose proof (canon_odd (S754_finite s p 0)) as Hodd.
  cbn [canon] in *. destruct (strip p 0) as [p' k]. cbn [fst snd] in *.
  rewrite Z.sub_0_r in *. exists p', k. repeat split; assumption.
Qed.

Lemma size_below (p : positive) (n : Z) : Zpos p < 2 ^ n -> 0 <= n -> size p <= n.
Proof.
  intros Hp Hn. pose proof (size_bound p) as [Hlo _].
  apply Z.nlt_ge. intros Hc.
  assert (2 ^ n <= 2 ^ (size p - 1)) by (apply Z.pow_le_mono_r; lia). lia.
Qed.

Lemma canon_integer_long_double (s : bool) (p : positive) :
  Zpos p < 2 ^ 64 ->
  fcast long_double (canon (S754_finite s p 0)) = canon (S754_finite s p 0).
Proof.
  intros Hp. destruct (canon_integer s p) as (p' & k & -> & Hk & Hv & Hsz & _).
  pose proof (size_below p 64 Hp ltac:(lia)).
  assert (0 < size p') by (unfold size; lia).
  apply fcast_representable.
  unfold representable, long_double; cbn [fmt prec emax]; unfold emin.
  rewrite !andb_true_iff, !Z.leb_le. lia.
Qed.

Lemma float_of_int_long_double (z : Z) :
  - 2 ^ 64 < z < 2 ^ 64 ->
  float_of_int long_double z = Reading.image_of z
  /\ odd_mantissa (float_of_int long_double z) = true
  /\ (fis_zero (float_of_int long_double z) = true -> z = 0).
Proof.
  intros Hz. unfold float_of_int, Reading.image_of.
  destruct z as [| p | p]; [repeat split | |];
    rewrite canon_integer_long_double by lia;
    (split; [reflexivity | split; [apply canon_odd |]]).
  - destruct (canon_integer false p) as (p' & k & -> & _). discriminate.
  - destruct (canon_integer true p) as (p' & k & -> & _). discriminate.
Qed.

Lemma int_of_float_image (y : spec_float) (m : Z) :
  finite y = true -> 0 <= expo y -> smant y * 2 ^ expo y = m ->
  0 <= m < 2 ^ 64 ->
  int_of_float unsigned_long_long y = Return m.
Proof.
  intros Hf He Hv Hm. unfold int_of_float, unsigned_long_long.
  rewrite (ftrunc_finite _ Hf), (proj2 (Z.leb_le _ _) He), Hv.
  replace (in_range (Int false W64) m) with true; [reflexivity |].
  symmetry. unfold in_range. apply andb_true_iff.
  split; apply Z.leb_le; cbn; lia.
Qed.

(** C++ gives an integer literal converted to a floating-point type the
    integer itself or nothing: the conversion returns exactly when the
    magnitude is a number of the type, and then returns that number with
    the literal's sign. *)
Lemma integer_to_floating_exact (Tf : floating) (m : Z) (neg : bool)
    (Hm : 0 <= m < 2 ^ 64) :
  (forall r,
      gsi.constinteger_operator_Up (Floating Tf) (gsi.Constinteger m neg) = Return r ->
      r = VFlt (if neg then SFopp (float_of_int long_double m)
                else float_of_int long_double m))
  /\ (gsi.constinteger_operator_Up (Floating Tf) (gsi.Constinteger m neg)
      = Return (VFlt (if neg then SFopp (float_of_int long_double m)
                      else float_of_int long_double m))
      <-> representable (fmt Tf) (float_of_int long_double m) = true).
Proof.
  destruct (fmt_facts Tf) as ((Hp & Hp64) & Hemax & Hemin).
  destruct (to_long_double_exact m) as (Hfin & Hexp & Hval); [lia |].
  cbn [to_long_double] in Hfin, Hexp, Hval.
  destruct (float_of_int_long_double m) as (Himg & Hodd & _); [lia |].
  set (x := float_of_int long_double m) in *.
  assert (Hcand : float_of_int (fmt Tf) m = fcast (fmt Tf) x).
  { rewrite Himg. unfold float_of_int, Reading.image_of.
    destruct m as [| p | p]; reflexivity. }
  rewrite constinteger_to_floating. cbn [gsi.int_M_value gsi.int_M_negative].
  rewrite Hcand.
  destruct (representable (fmt Tf) x) eqn:Hrep.
  - rewrite (fcast_representable _ x Hrep).
    rewrite (int_of_float_image x m Hfin Hexp Hval Hm), Z.eqb_refl.
    split; [intros r [= <-]; reflexivity | split; reflexivity].
  - assert (Hnot : forall r,
               match int_of_float unsigned_long_long (fcast (fmt Tf) x) with
               | Return back =>
                   if back =? m
                   then Return (VFlt (if neg then SFopp (fcast (fmt Tf) x)
                                      else fcast (fmt Tf) x))
                   else Throw bad_value_preserving_cast
               | Throw e => Throw e
               | Undefined => Undefined
               end <> Return r).
    { intros r. unfold fcast. rewrite Hrep.
      destruct m as [| p | p]; [discriminate Hrep | | lia].
      subst x. rewrite Himg in *. unfold Reading.image_of in *.
      destruct (canon_integer false p) as (p' & k & Hc & Hk & Hv & Hsz & Hpo).
      rewrite Hc in *.
      pose proof (size_below p 64 ltac:(lia) ltac:(lia)).
      assert (0 < size p') by (unfold size; lia).
      cbn [representable] in Hrep. rewrite Hemin in Hrep.
      assert (Hbig : prec (fmt Tf) < size p').
      { apply Z.nle_gt. intros Hle. 
        rewrite (proj2 (Z.leb_le _ _) Hle) in Hrep. cbn [andb] in Hrep.
        apply andb_false_iff in Hrep as [Hrep | Hrep]; apply Z.leb_gt in Hrep; lia. }
      pose proof (fround_exponent (fmt Tf) false p' k Hp) as Hexp'.
      assert (Hfe : k < fexp (prec (fmt Tf)) (emax (fmt Tf)) (size p' + k)).
      { unfold fexp. lia. }
      specialize (Hexp' Hfe).
      destruct (fround (fmt Tf) (S754_finite false p' k)) as [s' | s' | | s' m' e'];
        try contradiction.
      - cbn. discriminate.
      - cbn. discriminate.
      - unfold int_of_float, unsigned_long_long. cbn [ftrunc].
        rewrite (proj2 (Z.leb_le 0 e')) by lia.
        destruct (in_range _ _) eqn:Hin; [| discriminate].
        destruct (_ =? Zpos p) eqn:Heq; [| discriminate].
        exfalso. apply Z.eqb_eq in Heq.
        destruct (odd_mantissa_parity _ _ _ Hpo) as [q Hq].
        assert (Hs' : s' = false).
        { destruct s'; [| reflexivity]. cbn [cond_Zopp] in Heq.
          assert (0 < 2 ^ e') by (apply Z.pow_pos_nonneg; lia). nia. }
        subst s'. cbn [cond_Zopp] in Heq.
        replace e' with (Z.succ (e' - k - 1) + k) in Heq by lia.
        rewrite Z.pow_add_r, Z.pow_succ_r in Heq by lia.
        assert (0 < 2 ^ k) by (apply Z.pow_pos_nonneg; lia).
        assert (Hc2 : Zpos p' = 2 * (Zpos m' * 2 ^ (e' - k - 1))) by nia.
        lia. }
    split; [intros r Hr; now apply Hnot in Hr |].
    split; [intros Hr; now apply Hnot in Hr | discriminate].
Qed.

(** ** A real literal converts to an integral type only when it holds an
       integer of the type *)

(** On integers, conversion to [long double] keeps the order. *)
Lemma fcompare_images (z z' : Z) :
  - 2 ^ 64 < z < 2 ^ 64 -> - 2 ^ 64 < z' < 2 ^ 64 ->
  fcompare (float_of_int long_double z) (float_of_int long_double z')
  = Some (z ?= z').
Proof.
  intros Hz Hz'.
  destruct (to_long_double_exact z Hz) as (Hf & He & Hv).
  destruct (to_long_double_exact z' Hz') as (Hf' & He' & Hv').
  cbn [to_long_double] in *.
  rewrite (fcompare_finite _ _ Hf Hf'). f_equal.
  set (a := smant (float_of_int long_double z)) in *.
  set (b := smant (float_of_int long_double z')) in *.
  set (e := expo (float_of_int long_double z)) in *.
  set (e' := expo (float_of_int long_double z')) in *.
  assert (H0 : 0 <= Z.min e e') by lia.
  assert (Hp : 2 ^ Z.min e e' > 0)
    by (apply Z.lt_gt, Z.pow_pos_nonneg; lia).
  rewrite (Zmult_compare_compat_r _ _ _ Hp).
  rewrite <- !Z.mul_assoc, <- !Z.pow_add_r by lia.
  replace (e - Z.min e e' + Z.min e e') with e by lia.
  replace (e' - Z.min e e' + Z.min e e') with e' by lia.
  now rewrite Hv, Hv'.
Qed.

Lemma fcompare_zero_sign (s : bool) (y : spec_float) :
  fcompare (S754_zero s) y = fcompare (S754_zero false) y
  /\ fcompare y (S754_zero s) = fcompare y (S754_zero false).
Proof. destruct y; split; reflexivity. Qed.

Lemma int_of_float_of_image (Ti : integral) (z : Z) :
  in_range Ti z = true ->
  int_of_float Ti (float_of_int long_double z) = Return z.
Proof.
  intros Hin. pose proof Hin as Hb. unfold in_range in Hb.
  apply andb_true_iff in Hb as [Hl Hh]. apply Z.leb_le in Hl, Hh.
  pose proof (int_bounds Ti) as [Hlow Hmax].
  destruct (to_long_double_exact z) as (Hf & He & Hv); [lia |].
  cbn [to_long_double] in *.
  destruct Ti as [| sg w].
  - cbn [int_of_float]. cbn [int_lowest int_max] in *.
    assert (Hz : z = 0 \/ z = 1) by lia.
    destruct Hz as [-> | ->]; reflexivity.
  - cbn [int_of_float]. rewrite (ftrunc_finite _ Hf).
    rewrite (proj2 (Z.leb_le _ _) He), Hv. now rewrite Hin.
Qed.

Lemma spec_float_nan_dec (v : spec_float) : {v = S754_nan} + {v <> S754_nan}.
Proof. destruct v; (now left) || (right; discriminate). Qed.

(** A real literal converts to an integral type exactly when it holds an
    integer of that type, a negative zero counting as zero; what it returns
    is that integer. *)
Lemma real_to_integral_exact (Ti : integral) (v : spec_float) (z : Z)
    (Hv : has_type (Floating LongDouble) (VFlt v) = true) :
  (gsi.constreal_operator_Up (Integral Ti) (gsi.Constreal v) = Return (VInt z)
   <-> in_range Ti z = true
       /\ (v = float_of_int long_double z \/ (z = 0 /\ v = S754_zero true)))
  /\ (forall r, gsi.constreal_operator_Up (Integral Ti) (gsi.Constreal v) = Return r ->
                exists z', r = VInt z').
Proof.
  cbn [has_type] in Hv. apply andb_true_iff in Hv as [Hodd _].
  pose proof (int_bounds Ti) as [Hlow Hmax].
  assert (Hnan : v = S754_nan ->
                 forall r, gsi.constreal_operator_Up (Integral Ti) (gsi.Constreal v)
                           <> Return r).
  { intros -> r. destruct Ti as [| [] []]; discriminate. }
  split; [split |].
  - (* returned: the value is the image of z *)
    intros Hr.
    destruct (spec_float_nan_dec v) as [Hn | Hn]; [now apply Hnan in Hr |].
    pose proof (constreal_to_integral Ti (gsi.Constreal v) Hn) as H.
    rewrite Hr in H. cbn [gsi.real_M_value] in H.
    destruct H as (_ & _ & Hne & Hty).
    cbn [has_type] in Hty. split; [exact Hty |].
    pose proof Hty as Hb. unfold in_range in Hb.
    apply andb_true_iff in Hb as [Hl Hh]. apply Z.leb_le in Hl, Hh.
    destruct (float_of_int_long_double z) as (_ & Hyo & Hyz); [lia |].
    unfold fne in Hne. apply negb_false_iff in Hne. cbn [to_long_double] in Hne.
    destruct (feq_canonical _ _ Hyo Hodd Hne) as [Heq | [Hz1 Hz2]].
    + now left.
    + specialize (Hyz Hz1). subst z.
      destruct v as [[] | | |]; try discriminate; [now right | now left].
  - (* the image of z is returned *)
    intros [Hin Hvz].
    pose proof Hin as Hb. unfold in_range in Hb.
    apply andb_true_iff in Hb as [Hl Hh]. apply Z.leb_le in Hl, Hh.
    assert (Hcmp : forall y, fcompare v y
                             = fcompare (float_of_int long_double z) y).
    { intros y. destruct Hvz as [-> | [-> ->]]; [reflexivity |].
      apply (fcompare_zero_sign true y). }
    assert (Hof : of_long_double (Integral Ti) v = Return (VInt z)).
    { cbn [of_long_double].
      destruct Hvz as [-> | [-> ->]].
      - now rewrite int_of_float_of_image.
      - destruct Ti as [| [] []]; reflexivity. }
    unfold gsi.constreal_operator_Up. cbn [gsi.real_M_value max_ lowest to_long_double].
    unfold fgt, flt. rewrite !Hcmp, !fcompare_images by lia.
    destruct (Z.compare_spec z (int_max Ti)); try lia;
      destruct (Z.compare_spec z (int_lowest Ti)); try lia; cbn [orb];
      rewrite Hof; cbn [bind to_long_double]; unfold fne, feq;
      rewrite (proj2 (fcompare_zero_sign false _)) || idtac;
      destruct Hvz as [-> | [-> ->]];
      rewrite ?fcompare_images by lia; rewrite ?Z.compare_refl; reflexivity.
  - intros r Hr.
    destruct (spec_float_nan_dec v) as [Hn | Hn]; [now apply Hnan in Hr |].
    pose proof (constreal_to_integral Ti (gsi.Constreal v) Hn) as H.
    rewrite Hr in H. destruct H as (_ & Hof & _).
    cbn [of_long_double] in Hof. destruct (int_of_float _ _); try discriminate.
    cbn [bind] in Hof. injection Hof as <-. now eexists.
Qed.

(** ** Integer literals and integral types, by the integer they stand for *)

Lemma constinteger_by_value (Ti : integral) (m : Z) (neg : bool) :
  0 <= m < 2 ^ 64 ->
  gsi.constinteger_operator_Up (Integral Ti) (gsi.Constinteger m neg)
  = if in_range Ti (if neg then - m else m)
    then Return (VInt (if neg then - m else m))
    else Throw bad_value_preserving_cast.
Proof.
  intros Hm. rewrite constinteger_to_integral.
  pose proof (int_bounds Ti) as [Hlow Hmax]. unfold in_range.
  destruct neg; cbn [andb orb negb].
  - destruct (m >? - int_lowest Ti) eqn:Hc.
    + apply gtb_gt in Hc. rewrite (proj2 (Z.leb_gt _ _)) by lia. reflexivity.
    + apply gtb_le in Hc. rewrite to_integral_neg_magnitude by lia.
      rewrite (proj2 (Z.leb_le (int_lowest Ti) _)) by lia.
      rewrite (proj2 (Z.leb_le _ (int_max Ti))) by lia. reflexivity.
  - destruct (m >? int_max Ti) eqn:Hc.
    + apply gtb_gt in Hc. rewrite (proj2 (Z.leb_gt _ (int_max Ti))) by lia.
      now rewrite andb_false_r.
    + apply gtb_le in Hc.
      assert (Hin : in_range Ti m = true).
      { unfold in_range. apply andb_true_iff. split; apply Z.leb_le; lia. }
      rewrite (to_integral_in_range _ _ Hin). unfold in_range in Hin.
      now rewrite Hin.
Qed.

Lemma val_integral_parts (Ts : integral) (x : Z) :
  in_range Ts x = true ->
  gsi.val (Integral Ts) (VInt x)
  = gsi.LInteger (gsi.Constinteger (Z.abs x) (x <? 0)).
Proof.
  intros Hin. unfold in_range in Hin.
  apply andb_true_iff in Hin as [Hl Hh]. apply Z.leb_le in Hl, Hh.
  pose proof (int_bounds Ts) as [Hlow Hmax].
  cbn [gsi.val]. destruct (signed_integral Ts) eqn:Hs.
  - unfold gsi.val_signed. destruct (x >=? 0) eqn:Hx.
    + apply Z.geb_le in Hx. rewrite to_ull_small by lia.
      rewrite (proj2 (Z.ltb_ge _ _)) by lia. now rewrite Z.abs_eq.
    + rewrite Z.geb_leb in Hx. apply Z.leb_gt in Hx.
      rewrite ull_neg_to_ull_negative by lia.
      rewrite (proj2 (Z.ltb_lt _ _)) by lia. now rewrite Z.abs_neq by lia.
  - assert (0 <= x) by (destruct Ts as [|[] w]; cbn in *; try discriminate; lia).
    unfold gsi.val_unsigned. rewrite to_ull_small by lia.
    rewrite (proj2 (Z.ltb_ge _ _)) by lia. now rewrite Z.abs_eq.
Qed.

(** X1.  [val] of a value of one integral type converts to another integral
    type exactly when the value is in the range of that type, and then gives
    the value; otherwise the conversion throws. *)
Theorem X1_val_converts_within_range (Ts Ti : integral) (x : Z)
    (Hx : in_range Ts x = true) :
  gsi._ConvertTo (Integral Ti) (gsi.val (Integral Ts) (VInt x))
  = if in_range Ti x then Return (VInt x) else Throw bad_value_preserving_cast.
Proof.
  rewrite (val_integral_parts Ts x Hx). cbn [gsi._ConvertTo].
  pose proof Hx as Hb. unfold in_range in Hb.
  apply andb_true_iff in Hb as [Hl Hh]. apply Z.leb_le in Hl, Hh.
  pose proof (int_bounds Ts) as [Hlow Hmax].
  rewrite constinteger_by_value by lia.
  replace (if x <? 0 then - Z.abs x else Z.abs x) with x; [reflexivity |].
  destruct (Z.ltb_spec x 0); lia.
Qed.

(** X7.  A comparison of an integral value with an integer literal compares the
    value with the integer the literal stands for when that integer is in
    the range of the value's type, and throws otherwise: a negative literal
    against an unsigned value throws. *)
Theorem X7_compare_with_integer_literal
    (op : cmpop) (Ti : integral) (a m : Z) (neg : bool) (Hm : 0 <= m < 2 ^ 64) :
  gsi.compare_right op (Integral Ti) (VInt a) (gsi.LInteger (gsi.Constinteger m neg))
  = (if in_range Ti (if neg then - m else m)
     then Return (int_cmp op a (if neg then - m else m))
     else Throw bad_value_preserving_cast)
  /\ gsi.compare_left op (Integral Ti) (gsi.LInteger (gsi.Constinteger m neg)) (VInt a)
     = (if in_range Ti (if neg then - m else m)
        then Return (int_cmp op (if neg then - m else m) a)
        else Throw bad_value_preserving_cast)
  /\ (unsigned_integral Ti = true -> neg = true -> 0 < m ->
      gsi.compare_right op (Integral Ti) (VInt a)
        (gsi.LInteger (gsi.Constinteger m neg))
      = Throw bad_value_preserving_cast).
Proof.
  unfold gsi.compare_right, gsi.compare_left. cbn [gsi._ConvertTo].
  rewrite constinteger_by_value by assumption.
  split; [| split].
  - destruct (in_range _ _); reflexivity.
  - destruct (in_range _ _); reflexivity.
  - intros Hu -> Hpos.
    replace (in_range Ti (- m)) with false; [reflexivity |].
    symmetry. unfold in_range. apply andb_false_iff. left. apply Z.leb_gt.
    destruct Ti as [| [] w]; cbn in *; try discriminate; lia.
Qed.



(** ** Comparisons and commutative operators *)

Lemma fcompare_antisym (x y : spec_float) :
  fcompare y x = option_map CompOpp (fcompare x y).
Proof.
  destruct x as [s | s | | s m e], y as [s' | s' | | s' m' e'];
    unfold fcompare; cbn [smant expo option_map];
    try reflexivity;
    try (destruct s; reflexivity); try (destruct s'; reflexivity);
    try (destruct s, s'; reflexivity);
    rewrite (Z.min_comm (expo _) (expo _)) || idtac;
    cbn [expo]; try rewrite (Z.min_comm 0 _); try rewrite (Z.min_comm e' e);
    now rewrite Z.compare_antisym.
Qed.

Lemma native_cmp_mirror (op : cmpop) (a b : value) :
  native_cmp op a b = native_cmp (Reading.mirror op) b a.
Proof.
  destruct a as [x | x], b as [y | y]; cbn [native_cmp]; try reflexivity.
  - destruct op; cbn [int_cmp Reading.mirror];
      rewrite ?Z.geb_leb, ?Z.gtb_ltb, ?(Z.eqb_sym x y); reflexivity.
  - destruct op; cbn [float_cmp Reading.mirror];
      unfold feq, fne, fle, fge, flt, fgt, feq;
      rewrite (fcompare_antisym x y);
      destruct (fcompare x y) as [[] |]; reflexivity.
Qed.

(** X8.  [a op L] and [L op' a], where [op'] is [op] with its sides exchanged,
    are the same comparison: they convert alike and answer alike. *)
Theorem X8_comparison_forms_mirror
    (op : cmpop) (T : arith) (a : value) (L : gsi.literal) :
  gsi.compare_right op T a L = gsi.compare_left (Reading.mirror op) T L a.
Proof.
  unfold gsi.compare_right, gsi.compare_left.
  destruct (gsi._ConvertTo T L); cbn [bind]; try reflexivity.
  now rewrite native_cmp_mirror.
Qed.

Lemma SFadd_comm (p e : Z) (x y : spec_float) : SFadd p e x y = SFadd p e y x.
Proof.
  destruct x as [s | s | | s m ex], y as [s' | s' | | s' m' ey];
    cbn [SFadd]; try reflexivity; try (destruct s, s'; reflexivity).
  now rewrite Z.min_comm, Z.add_comm.
Qed.

Lemma SFmul_comm (p e : Z) (x y : spec_float) : SFmul p e x y = SFmul p e y x.
Proof.
  destruct x as [s | s | | s m ex], y as [s' | s' | | s' m' ey];
    cbn [SFmul]; try reflexivity; try (now rewrite xorb_comm).
  now rewrite xorb_comm, Pos.mul_comm, Z.add_comm.
Qed.

Lemma native_comm (op : binop) (T : arith) (a b : value) :
  Reading.commutative op = true -> native op T a b = native op T b a.
Proof.
  intros Hop. destruct T as [Ti | Tf], a as [x | x], b as [y | y];
    cbn [native]; try reflexivity.
  - destruct op; try discriminate; cbn [int_binop];
      rewrite ?(Z.add_comm x y), ?(Z.mul_comm x y), ?(Z.land_comm x y),
        ?(Z.lor_comm x y), ?(Z.lxor_comm x y); reflexivity.
  - destruct op; try discriminate; cbn [float_binop]; try reflexivity.
    + now rewrite SFadd_comm.
    + now rewrite SFmul_comm.
Qed.

(** X9.  For [+], [*], [&], [|] and [^] the literal may stand on either side:
    [a op L] and [L op a] return the same value or fail alike. *)
Theorem X9_commutative_operators_either_side
    (op : binop) (T : arith) (a : value) (L : gsi.literal)
    (Hop : Reading.commutative op = true) :
  gsi.binary_right op T a L = gsi.binary_left op T L a.
Proof.
  unfold gsi.binary_right, gsi.binary_left, gsi.CONVERTTO_OP_right,
    gsi.CONVERTTO_OP_left.
  destruct (satisfies _ T); [| reflexivity]. f_equal.
  destruct (gsi._ConvertTo T L); cbn [bind]; try reflexivity.
  now apply native_comm.
Qed.

(** ** Negation and floating-point targets *)

Lemma fcompare_opp (x y : spec_float) :
  fcompare (SFopp x) (SFopp y) = fcompare y x.
Proof.
  destruct x as [s | s | | s m e], y as [s' | s' | | s' m' e'];
    unfold fcompare; cbn [SFopp smant expo];
    try reflexivity;
    try (destruct s; reflexivity); try (destruct s'; reflexivity);
    try (destruct s, s'; reflexivity);
    f_equal; try rewrite (Z.min_comm 0 _); try rewrite (Z.min_comm e' e);
    rewrite <- Z.compare_opp;
    rewrite <- ?Z.mul_opp_l; rewrite ?Z.opp_0;
    (destruct s || idtac); (destruct s' || idtac); cbn [cond_Zopp negb];
    rewrite ?Z.opp_involutive; reflexivity.
Qed.

Lemma canon_opp (x : spec_float) : canon (SFopp x) = SFopp (canon x).
Proof.
  destruct x as [s | s | | s m e]; try reflexivity.
  cbn [SFopp canon]. now destruct (strip m e).
Qed.

Lemma binary_round_opp (p em : Z) (s : bool) (m : positive) (e : Z) :
  binary_round p em (negb s) m e = SFopp (binary_round p em s m e).
Proof.
  unfold binary_round. destruct (shl_align _ _ _) as [mz ez].
  unfold binary_round_aux.
  destruct (shr_fexp p em (Zpos mz) ez loc_Exact) as [mrs' e'].
  destruct (shr_fexp p em _ e' loc_Exact) as [mrs'' e''].
  destruct (shr_m mrs''); try reflexivity.
  destruct (e'' <=? em - p); reflexivity.
Qed.

Lemma fcast_opp (f : format) (x : spec_float) :
  fcast f (SFopp x) = SFopp (fcast f x).
Proof.
  unfold fcast.
  assert (Hr : representable f (SFopp x) = representable f x)
    by (destruct x; reflexivity).
  rewrite Hr. destruct (representable f x); [reflexivity |].
  destruct x as [s | s | | s m e]; try reflexivity.
  cbn [SFopp fround]. rewrite <- canon_opp. f_equal.
  destruct s; cbn [cond_Zopp negb binary_normalize Z.opp];
    [apply (binary_round_opp _ _ true) | apply (binary_round_opp _ _ false)].
Qed.

Lemma SFopp_involutive (x : spec_float) : SFopp (SFopp x) = x.
Proof. destruct x; cbn; now rewrite ?negb_involutive. Qed.

(** X10.  Towards a floating-point type negation goes through the conversion:
    the negated literal converts exactly when the literal does, to the
    negated value. *)
Theorem X10_negation_commutes_with_floating_conversion
    (Tf : floating) (L L' : gsi.literal) (Hneg : gsi.unary Minus L = Some L') :
  gsi._ConvertTo (Floating Tf) L'
  = (r <- gsi._ConvertTo (Floating Tf) L ;; Return (Reading.negate r)).
Proof.
  destruct L as [[m neg] | [v]]; cbn in Hneg; injection Hneg as <-;
    cbn [gsi._ConvertTo].
  - rewrite !constinteger_to_floating.
    cbn [gsi.constinteger_operator_minus gsi.int_M_value gsi.int_M_negative].
    destruct (int_of_float _ _) as [back | e |]; cbn [bind]; try reflexivity.
    destruct (back =? m); cbn [bind]; [| reflexivity].
    destruct neg; cbn [negb Reading.negate]; now rewrite ?SFopp_involutive.
  - rewrite !constreal_to_floating.
    cbn [gsi.constreal_operator_minus gsi.real_M_value].
    rewrite !fcast_opp.
    assert (Hgt : fgt (SFopp v) (float_max (fmt Tf)) = flt v (SFopp (float_max (fmt Tf)))).
    { unfold fgt, flt.
      rewrite <- (SFopp_involutive (float_max (fmt Tf))) at 1.
      rewrite fcompare_opp, (fcompare_antisym v).
      destruct (fcompare v _) as [[] |]; reflexivity. }
    assert (Hlt : flt (SFopp v) (SFopp (float_max (fmt Tf))) = fgt v (float_max (fmt Tf))).
    { unfold fgt, flt. rewrite fcompare_opp, (fcompare_antisym v).
      destruct (fcompare v _) as [[] |]; reflexivity. }
    assert (Hne : forall w, fne (SFopp w) (SFopp v) = fne w v).
    { intros w. unfold fne, feq. rewrite fcompare_opp, (fcompare_antisym w).
      destruct (fcompare w v) as [[] |]; reflexivity. }
    rewrite Hgt, Hlt, Hne, (orb_comm (flt _ _)).
    destruct (_ || _ || _); reflexivity.
Qed.

(** ** The sign of a zero literal *)

(** X11.  No comparison tells a negated zero literal from zero, for either
    literal type and every arithmetic type. *)
Theorem X11_comparisons_ignore_the_sign_of_zero
    (op : cmpop) (T : arith) (a : value) (s : bool) :
  gsi.compare_right op T a (gsi.LInteger (gsi.Constinteger 0 s))
  = gsi.compare_right op T a (gsi.LInteger (gsi.operator_val_integer 0))
  /\ gsi.compare_right op T a (gsi.LReal (gsi.Constreal (S754_zero s)))
     = gsi.compare_right op T a (gsi.LReal (gsi.operator_val_real (S754_zero false)))
  /\ gsi.compare_right op T a (gsi.LInteger (gsi.Constinteger 0 s))
     = gsi.compare_right op T a (gsi.LReal (gsi.Constreal (S754_zero s))).
Proof.
  assert (Hz : forall s', native_cmp op a (VFlt (S754_zero s'))
                          = native_cmp op a (VFlt (S754_zero false))).
  { intros s'. destruct a as [x | x]; [reflexivity |].
    destruct op; cbn [native_cmp float_cmp];
      unfold feq, fne, fle, fge, flt, fgt, feq;
      now rewrite (proj2 (fcompare_zero_sign s' x)). }
  unfold gsi.compare_right.
  destruct T as [[| [] []] | []], s; cbn; rewrite ?Hz; repeat split; reflexivity.
Qed.

(** ** What a conversion returns is a value of the target type *)

Lemma has_type_opp (Tf : floating) (x : spec_float) :
  has_type (Floating Tf) (VFlt (SFopp x)) = has_type (Floating Tf) (VFlt x).
Proof. destruct x as [| | | s [] e]; reflexivity. Qed.

(** X6.  Whatever a checked conversion returns is a value of the target
    type and is finite: an integer in the range of an integral type, a
    number or a zero of a floating-point type, never NaN or an infinity. *)
Theorem X6_conversion_result_has_type
    (T : arith) (L : gsi.literal) (r : value)
    (Hok : Reading.literal_ok L = true) (Hr : gsi._ConvertTo T L = Return r) :
  has_type T r = true /\ finite_value r = true.
Proof.
  destruct L as [[m neg] | [v]]; cbn [Reading.literal_ok] in Hok;
    cbn [gsi._ConvertTo gsi.int_M_value gsi.real_M_value] in *.
  - apply andb_true_iff in Hok as [H0 H1]. apply Z.leb_le in H0. apply Z.ltb_lt in H1.
    destruct T as [Ti | Tf].
    + rewrite constinteger_by_value in Hr by lia.
      destruct (in_range Ti _) eqn:Hin; [| discriminate].
      injection Hr as <-. split; [exact Hin | reflexivity].
    + destruct (integer_to_floating_exact Tf m neg (conj H0 H1)) as [Hex Hiff].
      pose proof (Hex r Hr) as Heq. subst r.
      pose proof (proj1 Hiff Hr) as Hrep.
      destruct (float_of_int_long_double m) as (_ & Hodd & _); [lia |].
      destruct (to_long_double_exact m) as (Hfin & _); [lia |].
      cbn [to_long_double] in Hfin.
      assert (Ht : has_type (Floating Tf) (VFlt (float_of_int long_double m)) = true)
        by (cbn [has_type]; now rewrite Hodd, Hrep).
      destruct neg; cbn [finite_value]; (split; [| destruct (float_of_int long_double m);
                                                    (exact Hfin || discriminate Hfin)]);
        [now rewrite has_type_opp | exact Ht].
  - destruct T as [Ti | Tf].
    + destruct (real_to_integral_exact Ti v 0 Hok) as [_ Hint].
      destruct (Hint r Hr) as [z ->].
      destruct (real_to_integral_exact Ti v z Hok) as [[Hin _] _].
      split; [now destruct (Hin Hr) | reflexivity].
    + destruct (real_to_floating_exact Tf v Hok) as (Hex & Hiff & _).
      pose proof (Hex r Hr) as Heq. subst r. destruct (proj1 Hiff Hr) as [Hfin Hrep].
      cbn [has_type finite_value] in *. apply andb_true_iff in Hok as [Hodd _].
      split; [now rewrite Hodd, Hrep | exact Hfin].
Qed.

(** ** Integers up to the precision *)

Lemma odd_part_of_power (p' : positive) (k n : Z) :
  0 <= k -> 0 <= n -> (exists q, Zpos p' = 2 * q + 1) ->
  Zpos p' * 2 ^ k = 2 ^ n -> Zpos p' = 1.
Proof.
  intros Hk Hn [q Hq] H.
  assert (Hpk : 0 < 2 ^ k) by (apply Z.pow_pos_nonneg; lia).
  destruct (Z.lt_trichotomy k n) as [Hlt | [-> | Hgt]].
  - exfalso. replace n with (Z.succ (n - k - 1) + k) in H by lia.
    rewrite Z.pow_add_r, Z.pow_succ_r in H by lia.
    assert (Zpos p' = 2 * 2 ^ (n - k - 1)) by nia. lia.
  - nia.
  - exfalso. assert (2 ^ n < 2 ^ k) by (apply Z.pow_lt_mono_r; lia). nia.
Qed.

(** X3.  An integer literal of magnitude at most [2^prec] converts to the
    floating-point type of precision [prec], to the integer itself with the
    literal's sign: up to [2^24] to [float], up to [2^53] to [double], and
    every literal to [long double]. *)
Theorem X3_integers_up_to_precision
    (Tf : floating) (m : Z) (neg : bool)
    (Hm : 0 <= m <= 2 ^ prec (fmt Tf)) (H64 : m < 2 ^ 64) :
  gsi.constinteger_operator_Up (Floating Tf) (gsi.Constinteger m neg)
  = Return (VFlt (if neg then SFopp (float_of_int long_double m)
                  else float_of_int long_double m)).
Proof.
  destruct (fmt_facts Tf) as ((Hp & Hp64) & Hemax & Hemin).
  apply (integer_to_floating_exact Tf m neg); [lia |].
  destruct (float_of_int_long_double m) as (-> & _); [lia |].
  destruct m as [| p | p]; [reflexivity | | lia].
  destruct (canon_integer false p) as (p' & k & Hc & Hk & Hv & Hsz & Hodd).
  cbn [Reading.image_of]. rewrite Hc.
  assert (0 < size p') by (unfold size; lia).
  pose proof (size_below p 64 ltac:(lia) ltac:(lia)).
  assert (Hsz' : size p' <= prec (fmt Tf)).
  { destruct (Z.eq_dec (Zpos p) (2 ^ prec (fmt Tf))) as [He | Hne].
    - rewrite He in Hv. symmetry in Hv.
      assert (H1 : Zpos p' = 1).
      { apply (odd_part_of_power p' k (prec (fmt Tf)) Hk); [lia | | exact Hv].
        exact (odd_mantissa_parity _ _ _ Hodd). }
      assert (p' = 1%positive) by lia. subst p'. unfold size. cbn. lia.
    - apply size_below; [| lia].
      assert (Zpos p' <= Zpos p).
      { rewrite Hv. assert (0 < 2 ^ k) by (apply Z.pow_pos_nonneg; lia). nia. }
      lia. }
  cbn [representable]. rewrite Hemin, !andb_true_iff, !Z.leb_le. lia.
Qed.


(** ** The exact conversions, one by one *)

(** X2.  An integer literal converted to a floating-point type returns the
    integer itself, with the literal's sign, or nothing: the conversion
    returns exactly when the magnitude is a number of the type, and never a
    rounded value. *)
Theorem X2_integer_to_floating_exact
    (Tf : floating) (m : Z) (neg : bool) (Hm : 0 <= m < 2 ^ 64) :
  (forall r,
      gsi.constinteger_operator_Up (Floating Tf) (gsi.Constinteger m neg) = Return r ->
      r = VFlt (if neg then SFopp (float_of_int long_double m)
                else float_of_int long_double m))
  /\ (gsi.constinteger_operator_Up (Floating Tf) (gsi.Constinteger m neg)
      = Return (VFlt (if neg then SFopp (float_of_int long_double m)
                      else float_of_int long_double m))
      <-> representable (fmt Tf) (float_of_int long_double m) = true)
  /\ smant (float_of_int long_double m) * 2 ^ expo (float_of_int long_double m) = m.
Proof.
  destruct (integer_to_floating_exact Tf m neg Hm) as [Hex Hiff].
  destruct (to_long_double_exact m) as (_ & _ & Hval); [lia |].
  repeat split; try assumption; apply Hiff.
Qed.

Lemma X2_integer_to_floating_exact_witness :
  0 <= 3 < 2 ^ 64
  /\ representable (fmt Float) (float_of_int long_double 3) = true.
Proof.
  assert (H : 0 <= 3 < 2 ^ 64) by (split; [discriminate | reflexivity]).
  split; [exact H |].
  exact (proj1 (proj1 (proj2 (X2_integer_to_floating_exact Float 3 false H)))
           eq_refl).
Defined.

Lemma X3_integers_up_to_precision_witness :
  0 <= 2 ^ 24 <= 2 ^ prec (fmt Float) /\ 2 ^ 24 < 2 ^ 64
  /\ gsi.constinteger_operator_Up (Floating Float) (gsi.Constinteger (2 ^ 24) true)
     = Return (VFlt (SFopp (float_of_int long_double (2 ^ 24)))).
Proof.
  assert (H : 0 <= 2 ^ 24 <= 2 ^ prec (fmt Float))
    by (split; vm_compute; discriminate).
  assert (H' : 2 ^ 24 < 2 ^ 64) by reflexivity.
  split; [exact H | split; [exact H' |]].
  exact (X3_integers_up_to_precision Float (2 ^ 24) true H H').
Defined.

(** X4.  A real literal converted to a floating-point type returns the
    literal's value unchanged or nothing: the conversion returns exactly
    when the value is finite and a number of the type, never a rounded
    value, and it is never undefined. *)
Theorem X4_real_to_floating_exact
    (Tf : floating) (v : spec_float)
    (Hv : has_type (Floating LongDouble) (VFlt v) = true) :
  (forall r, gsi.constreal_operator_Up (Floating Tf) (gsi.Constreal v) = Return r ->
             r = VFlt v)
  /\ (gsi.constreal_operator_Up (Floating Tf) (gsi.Constreal v) = Return (VFlt v)
      <-> finite v = true /\ representable (fmt Tf) v = true)
  /\ (gsi.constreal_operator_Up (Floating Tf) (gsi.Constreal v) <> Undefined).
Proof. exact (real_to_floating_exact Tf v Hv). Qed.

Lemma X4_real_to_floating_exact_witness :
  has_type (Floating LongDouble) (VFlt Lit.real_0_5) = true
  /\ gsi.constreal_operator_Up (Floating Float) (gsi.Constreal Lit.real_0_5)
     = Return (VFlt Lit.real_0_5).
Proof.
  split; [reflexivity |].
  exact (proj2 (proj1 (proj2 (X4_real_to_floating_exact Float Lit.real_0_5 eq_refl)))
           (conj eq_refl eq_refl)).
Defined.

(** X5.  A real literal converts to an integral type exactly when it holds
    an integer of that type's range, a negative zero counting as zero, and
    it returns that integer; unless the literal holds NaN the conversion is
    never undefined. *)
Theorem X5_real_to_integral_exact
    (Ti : integral) (v : spec_float) (z : Z)
    (Hv : has_type (Floating LongDouble) (VFlt v) = true) :
  (gsi.constreal_operator_Up (Integral Ti) (gsi.Constreal v) = Return (VInt z)
   <-> in_range Ti z = true
       /\ (v = float_of_int long_double z \/ (z = 0 /\ v = S754_zero true)))
  /\ (forall r, gsi.constreal_operator_Up (Integral Ti) (gsi.Constreal v) = Return r ->
                exists z', r = VInt z')
  /\ (v <> S754_nan ->
      gsi.constreal_operator_Up (Integral Ti) (gsi.Constreal v) <> Undefined).
Proof.
  destruct (real_to_integral_exact Ti v z Hv) as [Hiff Hint].
  split; [exact Hiff | split; [exact Hint |]].
  intros Hn Hu. pose proof (constreal_to_integral Ti (gsi.Constreal v) Hn) as H.
  now rewrite Hu in H.
Qed.

Lemma X5_real_to_integral_exact_witness :
  has_type (Floating LongDouble) (VFlt Lit.real_2_0) = true
  /\ gsi.constreal_operator_Up (Integral int) (gsi.Constreal Lit.real_2_0)
     = Return (VInt 2).
Proof.
  split; [reflexivity |].
  exact (proj2 (proj1 (X5_real_to_integral_exact int Lit.real_2_0 2 eq_refl))
           (conj eq_refl (or_introl eq_refl))).
Defined.

Lemma X1_val_converts_within_range_witness :
  in_range int 40000 = true
  /\ gsi._ConvertTo (Integral short) (gsi.val (Integral int) (VInt 40000))
     = Throw bad_value_preserving_cast.
Proof.
  split; [reflexivity |].
  exact (X1_val_converts_within_range int short 40000 eq_refl).
Defined.

Lemma X6_conversion_result_has_type_witness :
  Reading.literal_ok
    (gsi.LInteger (gsi.constinteger_operator_minus (gsi.operator_val_integer 0x8000)))
  = true
  /\ gsi._ConvertTo (Integral short)
       (gsi.LInteger (gsi.constinteger_operator_minus (gsi.operator_val_integer 0x8000)))
     = Return (VInt (- 0x8000))
  /\ has_type (Integral short) (VInt (- 0x8000)) = true
  /\ finite_value (VInt (- 0x8000)) = true.
Proof.
  split; [reflexivity | split; [reflexivity |]].
  exact (X6_conversion_result_has_type (Integral short)
           (gsi.LInteger (gsi.constinteger_operator_minus
                            (gsi.operator_val_integer 0x8000)))
           (VInt (- 0x8000)) eq_refl eq_refl).
Defined.

Lemma X7_compare_with_integer_literal_witness :
  0 <= 1 < 2 ^ 64
  /\ gsi.compare_right Lt_ (Integral (Int false W32)) (VInt 5)
       (gsi.LInteger (gsi.Constinteger 1 true))
     = Throw bad_value_preserving_cast.
Proof.
  assert (H : 0 <= 1 < 2 ^ 64) by (split; [discriminate | reflexivity]).
  split; [exact H |].
  exact (proj2 (proj2 (X7_compare_with_integer_literal Lt_ (Int false W32) 5 1 true H))
           eq_refl eq_refl eq_refl).
Defined.

Lemma X9_commutative_operators_either_side_witness :
  Reading.commutative Mul = true
  /\ gsi.binary_right Mul (Integral short) (VInt 7) (gsi.LInteger (gsi.operator_val_integer 6))
     = gsi.binary_left Mul (Integral short) (gsi.LInteger (gsi.operator_val_integer 6)) (VInt 7).
Proof.
  split; [reflexivity |].
  exact (X9_commutative_operators_either_side Mul (Integral short) (VInt 7)
           (gsi.LInteger (gsi.operator_val_integer 6)) eq_refl).
Defined.

Lemma X10_negation_commutes_with_floating_conversion_witness :
  gsi.unary Minus (gsi.LReal (gsi.operator_val_real Lit.real_0_5))
  = Some (gsi.LReal (gsi.constreal_operator_minus (gsi.operator_val_real Lit.real_0_5)))
  /\ gsi._ConvertTo (Floating Float)
       (gsi.LReal (gsi.constreal_operator_minus (gsi.operator_val_real Lit.real_0_5)))
     = (r <- gsi._ConvertTo (Floating Float) (gsi.LReal (gsi.operator_val_real Lit.real_0_5)) ;;
        Return (Reading.negate r)).
Proof.
  split; [reflexivity |].
  exact (X10_negation_commutes_with_floating_conversion Float
           (gsi.LReal (gsi.operator_val_real Lit.real_0_5))
           (gsi.LReal (gsi.constreal_operator_minus (gsi.operator_val_real Lit.real_0_5)))
           eq_refl).
Defined.

(** ** Failures come from the literal alone *)

Lemma native_never_throws (op : binop) (T : arith) (a b : value) (e : exn) :
  native op T a b <> Throw e.
Proof.
  destruct T as [Ti | Tf], a as [x | x], b as [y | y]; cbn [native];
    try discriminate.
  - destruct op; cbn [int_binop]; unfold fit;
      repeat match goal with
             | |- context [if ?c then _ else _] => destruct c
             end; cbn [bind]; discriminate.
  - destruct op; cbn [float_binop bind]; discriminate.
Qed.

(** X12.  Whether an operator expression throws is decided by the literal
    and the type of the concrete operand, not by the operand's value: each
    arithmetic, compound and comparison form throws exactly when the checked
    conversion of the literal throws. *)
Theorem X12_operators_throw_exactly_when_the_conversion_throws
    (op : binop) (cop : cmpop) (T : arith) (a : value) (L : gsi.literal) (e : exn)
    (Hsat : satisfies (gsi.constraint_of op) T = true) :
  (gsi.binary_right op T a L = Some (Throw e) <-> gsi._ConvertTo T L = Throw e)
  /\ (gsi.binary_left op T L a = Some (Throw e) <-> gsi._ConvertTo T L = Throw e)
  /\ (gsi.compound_assign op T a L = Some (Throw e) <-> gsi._ConvertTo T L = Throw e)
  /\ (gsi.compare_right cop T a L = Throw e <-> gsi._ConvertTo T L = Throw e)
  /\ (gsi.compare_left cop T L a = Throw e <-> gsi._ConvertTo T L = Throw e).
Proof.
  unfold gsi.binary_right, gsi.binary_left, gsi.compound_assign,
    gsi.CONVERTTO_OP_right, gsi.CONVERTTO_OP_left, gsi.CONVERTTO_OP_assign,
    gsi.compare_right, gsi.compare_left.
  rewrite Hsat.
  destruct (gsi._ConvertTo T L) as [b | e' |]; cbn [bind];
    repeat split; intros H; try discriminate H; try congruence;
    injection H as H; now apply native_never_throws in H.
Qed.

Lemma X12_operators_throw_exactly_when_the_conversion_throws_witness :
  satisfies (gsi.constraint_of Add) (Floating Float) = true
  /\ gsi.compound_assign Add (Floating Float) (VFlt (S754_zero false))
       (gsi.LReal (gsi.operator_val_real Lit.real_0_1))
     = Some (Throw bad_value_preserving_cast).
Proof.
  split; [reflexivity |].
  exact (proj2 (proj1 (proj2 (proj2
           (X12_operators_throw_exactly_when_the_conversion_throws
              Add Eq_ (Floating Float) (VFlt (S754_zero false))
              (gsi.LReal (gsi.operator_val_real Lit.real_0_1))
              bad_value_preserving_cast eq_refl)))) eq_refl).
Defined.

(** ** [val] between floating-point types *)

Lemma representable_wider (Tf Tg : floating) (x : spec_float) :
  prec (fmt Tf) <= prec (fmt Tg) ->
  representable (fmt Tf) x = true -> representable (fmt Tg) x = true.
Proof.
  destruct x as [s | s | | s m e]; try reflexivity.
  unfold representable.
  destruct Tf, Tg; cbn [fmt prec emax]; unfold emin;
    rewrite !andb_true_iff, !Z.leb_le; lia.
Qed.

(** X13.  [val] of a value of one floating-point type converts to another
    floating-point type exactly when the value is finite and a number of
    that type, unchanged; otherwise the conversion throws.  So a finite
    value always converts to a type at least as precise. *)
Theorem X13_val_between_floating_types
    (Tf Tg : floating) (x : spec_float)
    (Hx : has_type (Floating Tf) (VFlt x) = true) :
  gsi._ConvertTo (Floating Tg) (gsi.val (Floating Tf) (VFlt x))
  = (if finite x && representable (fmt Tg) x
     then Return (VFlt x) else Throw bad_value_preserving_cast)
  /\ (prec (fmt Tf) <= prec (fmt Tg) -> finite x = true ->
      gsi._ConvertTo (Floating Tg) (gsi.val (Floating Tf) (VFlt x))
      = Return (VFlt x)).
Proof.
  cbn [has_type] in Hx. apply andb_true_iff in Hx as [Hodd Hrep].
  pose proof (representable_long_double Tf x Hrep) as Hld.
  assert (Hval : gsi._ConvertTo (Floating Tg) (gsi.val (Floating Tf) (VFlt x))
                 = gsi.constreal_operator_Up (Floating Tg) (gsi.Constreal x)).
  { cbn [gsi.val gsi._ConvertTo]. unfold gsi.val_floating, gsi.val_long_double.
    now rewrite (fcast_representable long_double x Hld). }
  assert (Hty : has_type (Floating LongDouble) (VFlt x) = true)
    by (cbn [has_type]; rewrite Hodd; exact Hld).
  destruct (real_to_floating_exact Tg x Hty) as (Hex & Hiff & Hdef).
  assert (Hmain : gsi.constreal_operator_Up (Floating Tg) (gsi.Constreal x)
                  = if finite x && representable (fmt Tg) x
                    then Return (VFlt x) else Throw bad_value_preserving_cast).
  { destruct (finite x && representable (fmt Tg) x) eqn:Hc.
    - apply andb_true_iff in Hc. now apply Hiff.
    - destruct (gsi.constreal_operator_Up (Floating Tg) (gsi.Constreal x))
        as [r | [] |] eqn:E; [| reflexivity | contradiction].
      pose proof (Hex r eq_refl) as ->.
      destruct (proj1 Hiff eq_refl) as [H1 H2]. now rewrite H1, H2 in Hc. }
  split; [now rewrite Hval |].
  intros Hp Hfin. rewrite Hval, Hmain, Hfin.
  now rewrite (representable_wider Tf Tg x Hp Hrep).
Qed.

Lemma X13_val_between_floating_types_witness :
  has_type (Floating Double) (VFlt (fround (fmt Double) Lit.real_0_1)) = true
  /\ gsi._ConvertTo (Floating Float)
       (gsi.val (Floating Double) (VFlt (fround (fmt Double) Lit.real_0_1)))
     = Throw bad_value_preserving_cast.
Proof.
  split; [reflexivity |].
  exact (proj1 (X13_val_between_floating_types Double Float
                  (fround (fmt Double) Lit.real_0_1) eq_refl)).
Defined.

(** ** The operators restricted to integral types, with a real literal *)

Lemma native_on_integers (op : binop) (Ti : integral) (x z : Z) :
  gsi.constraint_of op = integral_ ->
  native op (Integral Ti) (VInt x) (VInt z)
  = match op with
    | Mod =>
        if z =? 0 then Undefined
        else if in_range (promoted Ti) (Z.quot x z)
             then Return (VInt (to_integral Ti (Z.rem x z)))
             else Undefined
    | And => Return (VInt (to_integral Ti (Z.land x z)))
    | Or => Return (VInt (to_integral Ti (Z.lor x z)))
    | _ => Return (VInt (to_integral Ti (Z.lxor x z)))
    end.
Proof.
  intros Hop. destruct op; try discriminate Hop; cbn [native int_binop bind];
    try reflexivity.
  destruct (z =? 0); [reflexivity |].
  destruct (in_range _ _); reflexivity.
Qed.

(** C2.  The operators [%], [&], [|] and [^] exist exactly for a concrete
    operand of integral type, whichever the literal type.  With a real
    literal operand other than NaN each of the three forms converts the
    literal to the integral type with the checked conversion.  When the
    literal holds an integer [z] of the type (a negative zero counting as
    0), [a op L] and [L op a] are what the built-in operator gives on the
    operand and [z]: a value for [&], [|] and [^], and for [%] a value
    unless the divisor is zero or the quotient is out of range; the
    compound assignment has a result too and does not throw.  When the
    literal holds anything else, all three forms throw
    [bad_value_preserving_cast]. *)
Theorem C2_integral_operators_accept_real_literals
    (op : binop) (T : arith) (a : value) (v : spec_float)
    (Hop : gsi.constraint_of op = integral_)
    (Hv : has_type (Floating LongDouble) (VFlt v) = true)
    (Hnan : v <> S754_nan) :
  (forall L : gsi.literal,
      (gsi.binary_right op T a L = None <-> exists Tf, T = Floating Tf)
      /\ (gsi.binary_left op T L a = None <-> exists Tf, T = Floating Tf)
      /\ (gsi.compound_assign op T a L = None <-> exists Tf, T = Floating Tf))
  /\ (forall Ti z,
        T = Integral Ti -> in_range Ti z = true ->
        v = float_of_int long_double z \/ (z = 0 /\ v = S754_zero true) ->
        gsi.binary_right op T a (gsi.LReal (gsi.Constreal v))
        = Some (native op T a (VInt z))
        /\ gsi.binary_left op T (gsi.LReal (gsi.Constreal v)) a
           = Some (native op T (VInt z) a)
        /\ (exists r, gsi.compound_assign op T a (gsi.LReal (gsi.Constreal v)) = Some r
                      /\ forall e, r <> Throw e))
  /\ (forall Ti,
        T = Integral Ti ->
        (forall z, in_range Ti z = true ->
                   ~ (v = float_of_int long_double z \/ (z = 0 /\ v = S754_zero true))) ->
        gsi.binary_right op T a (gsi.LReal (gsi.Constreal v))
        = Some (Throw bad_value_preserving_cast)
        /\ gsi.binary_left op T (gsi.LReal (gsi.Constreal v)) a
           = Some (Throw bad_value_preserving_cast)
        /\ gsi.compound_assign op T a (gsi.LReal (gsi.Constreal v))
           = Some (Throw bad_value_preserving_cast))
  /\ (forall Ti x z,
        T = Integral Ti -> a = VInt x ->
        native op T a (VInt z)
        = match op with
          | Mod =>
              if z =? 0 then Undefined
              else if in_range (promoted Ti) (Z.quot x z)
                   then Return (VInt (to_integral Ti (Z.rem x z)))
                   else Undefined
          | And => Return (VInt (to_integral Ti (Z.land x z)))
          | Or => Return (VInt (to_integral Ti (Z.lor x z)))
          | _ => Return (VInt (to_integral Ti (Z.lxor x z)))
          end).
Proof.
  unfold gsi.binary_right, gsi.binary_left, gsi.compound_assign,
    gsi.CONVERTTO_OP_right, gsi.CONVERTTO_OP_left, gsi.CONVERTTO_OP_assign.
  rewrite Hop. cbn [gsi._ConvertTo].
  destruct T as [Ti | Tf]; cbn [satisfies].
  - split; [| split; [| split]].
    + intros L. repeat split; try discriminate; intros [Tf H]; discriminate H.
    + intros Ti' z [= <-] Hin Hval.
      rewrite (proj2 (proj1 (real_to_integral_exact Ti v z Hv)) (conj Hin Hval)).
      cbn [bind]. repeat split.
      eexists; split; [reflexivity |]. intros e. apply native_never_throws.
    + intros Ti' [= <-] Hnot.
      assert (Hthrow : gsi.constreal_operator_Up (Integral Ti) (gsi.Constreal v)
                       = Throw bad_value_preserving_cast).
      { pose proof (constreal_to_integral Ti (gsi.Constreal v) Hnan) as Hdef.
        destruct (gsi.constreal_operator_Up (Integral Ti) (gsi.Constreal v))
          as [r | [] |] eqn:E; [| reflexivity | contradiction].
        exfalso.
        destruct (proj2 (real_to_integral_exact Ti v 0 Hv) r E) as [z ->].
        destruct (proj1 (proj1 (real_to_integral_exact Ti v z Hv)) E) as [Hin Hval].
        exact (Hnot z Hin Hval). }
      rewrite Hthrow. cbn [bind]. repeat split.
    + intros Ti' x z [= <-] ->. now apply native_on_integers.
  - split; [| split; [| split]].
    + intros L. repeat split; try (intros _; now exists Tf); reflexivity.
    + intros Ti' z H; discriminate H.
    + intros Ti' H; discriminate H.
    + intros Ti' x z H; discriminate H.
Qed.

Lemma C2_integral_operators_accept_real_literals_witness :
  gsi.constraint_of Mod = integral_
  /\ has_type (Floating LongDouble) (VFlt Lit.real_2_0) = true
  /\ Lit.real_2_0 <> S754_nan
  /\ gsi.binary_right Mod (Integral int) (VInt 7)
       (gsi.LReal (gsi.Constreal Lit.real_2_0))
     = Some (native Mod (Integral int) (VInt 7) (VInt 2)).
Proof.
  assert (Hn : Lit.real_2_0 <> S754_nan) by discriminate.
  split; [reflexivity | split; [reflexivity | split; [exact Hn |]]].
  destruct (C2_integral_operators_accept_real_literals Mod (Integral int)
              (VInt 7) Lit.real_2_0 eq_refl eq_refl Hn)
    as (_ & Hret & _).
  exact (proj1 (Hret int 2 eq_refl eq_refl (or_introl eq_refl))).
Defined.

